(** * setup_database.py: the bootstrap script of the grant success predictor

    The script probes a PostgreSQL-compatible store (CockroachDB, through
    psycopg2) and the AI provider, creates six tables with
    [CREATE TABLE IF NOT EXISTS], inserts a fixed catalog of eight grants
    with [INSERT ... ON CONFLICT DO NOTHING], prints a status summary and
    closes the connection.

    The development has three layers:
    - [Sql]: tables, column constraints, conditional create and conditional
      insert, as the statements of the script use them;
    - [Psycopg]: the connection of the script, which runs every statement
      inside a transaction until [commit] (the script never switches
      autocommit on and calls [conn.commit()] itself);
    - [Setup]: the script, statement by statement, over a world made of the
      store, the connection and the printed lines. *)

From stdpp Require Import gmap strings list fin_maps pretty.
From Stdlib Require Import ZArith.

Open Scope Z_scope.
Open Scope string_scope.
Open Scope list_scope.

(* ===================================================================== *)
(** ** Relational store *)
(* ===================================================================== *)

Module Sql.

(** Values carried by the statements of the script. A number is a decimal
    [m / 10^k]: 50000 is [VNum 50000 0], 32.5 is [VNum 325 1]. *)
Inductive value :=
| VNull
| VText (s : string)
| VNum (m : Z) (k : nat)
| VDate (d : Z)
| VUuid (u : Z)
| VBool (b : bool)
| VTime (t : Z)
| VJson (s : string).

#[global] Instance value_eq_dec : EqDecision value.
Proof. solve_decision. Defined.

Inductive sqltype :=
| UUID
| VARCHAR (n : nat)
| TEXT
| DECIMAL (p s : nat)
| DATE
| INTEGER
| BOOLEAN
| JSONB
| TIMESTAMP.

Inductive default :=
| NoDefault
| GenRandomUuid          (* DEFAULT gen_random_uuid() *)
| CurrentTimestamp       (* DEFAULT CURRENT_TIMESTAMP *)
| Const (v : value).     (* DEFAULT 'free', DEFAULT FALSE *)

Record column := Column {
  cname : string;
  ctype : sqltype;
  cpk : bool;                               (* PRIMARY KEY *)
  cnotnull : bool;                          (* NOT NULL *)
  cunique : bool;                           (* UNIQUE *)
  cdefault : default;
  creferences : option (string * string)    (* REFERENCES t(c) *)
}.

Record table_def := TableDef { tname : string; tcols : list column }.

(** A row gives one value per column of its table, in column order. *)
Definition row := list (string * value).

Record table := Table { tdef : list column; trows : list row }.

Abbreviation db := (gmap string table).

Inductive sql_error :=
| UndefinedTable (t : string)
| UndefinedColumn (t c : string)
| InvalidForeignKey (t c : string)
| StringDataRightTruncation (c : string)
| NumericValueOutOfRange (c : string)
| DatatypeMismatch (c : string)
| NotNullViolation (c : string)
| ForeignKeyViolation (c : string)
| ServerUnavailable
| InFailedSqlTransaction.

Inductive result (A : Type) :=
| Ok (a : A)
| Err (e : sql_error).
Arguments Ok {A} a.
Arguments Err {A} e.

Definition rbind {A B} (r : result A) (f : A -> result B) : result B :=
  match r with
  | Ok a => f a
  | Err e => Err e
  end.

Fixpoint rmap {A B} (f : A -> result B) (l : list A) : result (list B) :=
  match l with
  | [] => Ok []
  | a :: l' =>
      rbind (f a) (fun b => rbind (rmap f l') (fun bs => Ok (b :: bs)))
  end.

(** *** Lookups *)

Fixpoint assoc {A} (k : string) (l : list (string * A)) : option A :=
  match l with
  | [] => None
  | (k', a) :: l' => if decide (k = k') then Some a else assoc k l'
  end.

Definition row_get (r : row) (c : string) : value :=
  match assoc c r with
  | Some v => v
  | None => VNull
  end.

Definition find_column (cols : list column) (c : string) : option column :=
  List.find (fun col => bool_decide (cname col = c)) cols.

Definition is_key (c : column) : bool := cpk c || cunique c.
Definition is_required (c : column) : bool := cpk c || cnotnull c.

Definition rows_of (s : db) (t : string) : list row :=
  match s !! t with
  | Some tb => trows tb
  | None => []
  end.

Definition def_of (s : db) (t : string) : option (list column) :=
  tdef <$> s !! t.

(** *** CREATE TABLE IF NOT EXISTS *)

(** A [REFERENCES t(c)] clause needs table [t] to exist with a key column
    [c]. None of the script's tables references itself. *)
Definition reference_ok (s : db) (c : column) : bool :=
  match creferences c with
  | None => true
  | Some (t, k) =>
      match s !! t with
      | None => false
      | Some tb =>
          match find_column (tdef tb) k with
          | Some kc => is_key kc
          | None => false
          end
      end
  end.

Fixpoint first_bad_reference (s : db) (cols : list column) : option column :=
  match cols with
  | [] => None
  | c :: cols' =>
      if reference_ok s c then first_bad_reference s cols' else Some c
  end.

Definition reference_error (s : db) (c : column) : sql_error :=
  match creferences c with
  | Some (t, k) =>
      match s !! t with
      | None => UndefinedTable t
      | Some _ => InvalidForeignKey t k
      end
  | None => UndefinedTable ""
  end.

(** If a table of that name exists the statement does nothing, whatever
    the columns of the existing table are. *)
Definition create_table_if_not_exists (d : table_def) (s : db) : result db :=
  match s !! tname d with
  | Some _ => Ok s
  | None =>
      match first_bad_reference s (tcols d) with
      | Some c => Err (reference_error s c)
      | None => Ok (<[tname d := Table (tcols d) []]> s)
      end
  end.

(** *** INSERT ... ON CONFLICT DO NOTHING *)

Definition pow10 (n : nat) : Z := 10 ^ Z.of_nat n.

(** Rounding of [m / 10^k] to [s] fractional digits, half away from zero. *)
Definition rescale (m : Z) (k s : nat) : Z :=
  if (k <=? s)%nat then m * pow10 (s - k)
  else
    let d := pow10 (k - s) in
    Z.sgn m * ((2 * Z.abs m + d) / (2 * d)).

(** Assignment of a value to a column of type [t]. Only the kinds of value
    the script sends are converted; a value of another kind than the column
    is rejected. *)
Definition coerce (c : string) (t : sqltype) (v : value) : result value :=
  match v, t with
  | VNull, _ => Ok VNull
  | VText x, VARCHAR n =>
      if (String.length x <=? n)%nat then Ok v
      else Err (StringDataRightTruncation c)
  | VText _, TEXT => Ok v
  | VNum m k, DECIMAL p s =>
      let m' := rescale m k s in
      if (Z.abs m' <? pow10 p)%Z then Ok (VNum m' s)
      else Err (NumericValueOutOfRange c)
  | VNum m k, INTEGER =>
      let m' := rescale m k 0 in
      if ((- 2 ^ 31 <=? m') && (m' <? 2 ^ 31))%Z then Ok (VNum m' 0)
      else Err (NumericValueOutOfRange c)
  | VDate _, DATE => Ok v
  | VUuid _, UUID => Ok v
  | VBool _, BOOLEAN => Ok v
  | VTime _, TIMESTAMP => Ok v
  | VJson _, JSONB => Ok v
  | _, _ => Err (DatatypeMismatch c)
  end.

(** [rnd j] is what [gen_random_uuid()] returns for the column at position
    [j] in this statement; [now] is CURRENT_TIMESTAMP. *)
Definition default_value (rnd : nat -> Z) (now : Z) (j : nat) (d : default)
  : value :=
  match d with
  | NoDefault => VNull
  | GenRandomUuid => VUuid (rnd j)
  | CurrentTimestamp => VTime now
  | Const v => v
  end.

Definition column_value (rnd : nat -> Z) (now : Z) (given : list (string * value))
    (jc : nat * column) : result (string * value) :=
  let (j, c) := jc in
  match assoc (cname c) given with
  | Some v => rbind (coerce (cname c) (ctype c) v) (fun v' => Ok (cname c, v'))
  | None => Ok (cname c, default_value rnd now j (cdefault c))
  end.

Fixpoint first_unknown_column {A} (cols : list column) (given : list (string * A))
  : option string :=
  match given with
  | [] => None
  | (c, _) :: given' =>
      match find_column cols c with
      | Some _ => first_unknown_column cols given'
      | None => Some c
      end
  end.

Fixpoint first_null_violation (cols : list column) (r : row) : option string :=
  match cols with
  | [] => None
  | c :: cols' =>
      if is_required c && bool_decide (row_get r (cname c) = VNull)
      then Some (cname c)
      else first_null_violation cols' r
  end.

(** A row conflicts when one of its key columns holds a non-null value that
    a stored row already holds in that column. *)
Definition key_taken (rows : list row) (r : row) (c : column) : bool :=
  is_key c
  && negb (bool_decide (row_get r (cname c) = VNull))
  && existsb (fun r' => bool_decide (row_get r' (cname c) = row_get r (cname c)))
       rows.

Definition conflicts (cols : list column) (rows : list row) (r : row) : bool :=
  existsb (key_taken rows r) cols.

Definition reference_held (s : db) (r : row) (c : column) : bool :=
  match creferences c with
  | None => true
  | Some (t, k) =>
      bool_decide (row_get r (cname c) = VNull)
      || existsb (fun r' => bool_decide (row_get r' k = row_get r (cname c)))
           (rows_of s t)
  end.

Fixpoint first_dangling_reference (s : db) (cols : list column) (r : row)
  : option string :=
  match cols with
  | [] => None
  | c :: cols' =>
      if reference_held s r c then first_dangling_reference s cols' r
      else Some (cname c)
  end.

(** The statement returns the new store and the row count (1 when the row
    was stored, 0 when a conflict made the statement do nothing). *)
Definition insert_on_conflict_do_nothing (rnd : nat -> Z) (now : Z)
    (t : string) (given : list (string * value)) (s : db) : result (db * nat) :=
  match s !! t with
  | None => Err (UndefinedTable t)
  | Some tb =>
      match first_unknown_column (tdef tb) given with
      | Some c => Err (UndefinedColumn t c)
      | None =>
          rbind (rmap (column_value rnd now given) (imap pair (tdef tb)))
            (fun r =>
               match first_null_violation (tdef tb) r with
               | Some c => Err (NotNullViolation c)
               | None =>
                   if conflicts (tdef tb) (trows tb) r then Ok (s, 0%nat)
                   else
                     match first_dangling_reference s (tdef tb) r with
                     | Some c => Err (ForeignKeyViolation c)
                     | None =>
                         Ok (<[t := Table (tdef tb) (trows tb ++ [r])]> s, 1%nat)
                     end
               end)
      end
  end.

(** [SELECT COUNT( * ) FROM t] *)
Definition select_count (t : string) (s : db) : result (db * nat) :=
  match s !! t with
  | None => Err (UndefinedTable t)
  | Some tb => Ok (s, length (trows tb))
  end.

End Sql.

(* ===================================================================== *)
(** ** The psycopg2 connection *)
(* ===================================================================== *)

Module Psycopg.
Import Sql.

(** The script leaves autocommit off, so the first statement after
    [connect] or [commit] opens a transaction on the server. A statement
    the server rejects leaves the transaction aborted: every later
    statement is refused until the transaction ends, and ending it with
    [commit] discards what it had done. *)
Inductive txn :=
| Idle
| InTxn (work : db)
| Aborted.

Inductive connection :=
| NotConnected
| Open (t : txn)
| Closed.

Inductive exn :=
| OperationalError                 (* psycopg2.connect failed *)
| DatabaseError (e : sql_error)    (* the server rejected a statement *)
| InterfaceError                   (* no open connection *)
| ApiError                         (* the AI provider call failed *)
| OSError                          (* open(..., "w") failed *)
| FormatError                      (* formatting a listed row failed *)
| ResponseError                    (* the content of a response cannot be read *)
| TypeError                        (* len(None) *)
| UnicodeEncodeError.              (* print cannot encode its text *)

Definition statement (A : Type) := db -> result (db * A).

(** [cursor.execute]: the statement runs on the transaction's view of the
    store, or on the committed store when it opens the transaction. *)
Definition execute_on {A} (q : statement A) (committed : db) (c : connection)
  : (exn + A) * connection :=
  match c with
  | Open Aborted => (inl (DatabaseError InFailedSqlTransaction), Open Aborted)
  | Open t =>
      let view := match t with InTxn d => d | _ => committed end in
      match q view with
      | Ok (d, a) => (inr a, Open (InTxn d))
      | Err e => (inl (DatabaseError e), Open Aborted)
      end
  | _ => (inl InterfaceError, c)
  end.

(** [conn.commit()]: returns the new committed store. *)
Definition commit_on (committed : db) (c : connection)
  : (exn + unit) * db * connection :=
  match c with
  | Open (InTxn d) => (inr (), d, Open Idle)
  | Open _ => (inr (), committed, Open Idle)
  | _ => (inl InterfaceError, committed, c)
  end.

End Psycopg.

(* ===================================================================== *)
(** ** The script *)
(* ===================================================================== *)

Module Setup.
Import Sql Psycopg.

(** *** What the script does not control *)

Inductive phase := Probe | SmokeTest.
Inductive call_shape := Modern | Legacy.     (* openai 1.0+ / openai 0.x *)

Record env := Env {
  connect_ok : bool;                   (* psycopg2.connect(DATABASE_URL) *)
  version_ok : bool;                   (* SELECT version() *)
  ai_ok : phase -> call_shape -> bool; (* outcome of each completion call *)
  uuid : nat -> nat -> Z;  (* gen_random_uuid() in the n-th INSERT, column j *)
  entropy : nat -> Z;      (* random source of the i-th random.randint *)
  today : Z;               (* datetime.now().date(), as a day number *)
  now : Z;                 (* CURRENT_TIMESTAMP *)
  file_ok : bool;          (* connection_info.txt can be written *)
  format_ok : db -> bool;  (* the final listing formats its rows *)
  answer : call_shape -> option (option string);
    (* response.choices[0].message.content of the smoke-test response:
       None when reading it raises, Some None when the content is null *)
  console_ok : string -> bool   (* print can encode this text *)
}.

(** What a run leaves behind besides the store: the status lines it
    prints ([PrintExn] for a line that ends with the text of an exception),
    the completion calls it makes and the file it writes. The banners, the
    step headings and the closing help text, which never vary, are not
    recorded. *)
Inductive event :=
| Print (line : string)
| PrintExn (prefix : string) (e : exn)
| Call (p : phase) (s : call_shape)
| WriteFile (name : string) (grant_count : nat).

Record world := World {
  store : db;             (* the committed tables of the server *)
  conn : connection;
  sent : nat;             (* INSERT statements sent so far in this run *)
  log : list event
}.

(** *** Control flow of the interpreter *)

Inductive outcome (A : Type) :=
| Return (a : A)
| Raise (e : exn)
| Exit (code : Z).           (* exit(code) *)
Arguments Return {A} a.
Arguments Raise {A} e.
Arguments Exit {A} code.

Definition M (A : Type) : Type := world -> outcome A * world.

#[global] Instance M_ret : MRet M := fun A a w => (Return a, w).

#[global] Instance M_bind : MBind M := fun A B f m w =>
  match m w with
  | (Return a, w') => f a w'
  | (Raise e, w') => (Raise e, w')
  | (Exit c, w') => (Exit c, w')
  end.

(** [try: body  except Exception as e: handler]; [exit] is not caught. *)
Definition try_except {A} (body : M A) (handler : exn -> M A) : M A :=
  fun w =>
    match body w with
    | (Raise e, w') => handler e w'
    | r => r
    end.

(** [try: body  except: handler] catches everything. *)
Definition try_bare {A} (body : M A) (handler : M A) : M A :=
  fun w =>
    match body w with
    | (Return a, w') => (Return a, w')
    | (_, w') => handler w'
    end.

Definition emit (e : event) : M unit :=
  fun w => (Return (), World (store w) (conn w) (sent w) (log w ++ [e])).

Definition print (line : string) : M unit := emit (Print line).

Definition exit {A} (code : Z) : M A := fun w => (Exit code, w).

Definition raise {A} (e : exn) : M A := fun w => (Raise e, w).

(** *** Connection and cursor *)

Definition connect (E : env) : M unit :=
  fun w =>
    if connect_ok E
    then (Return (), World (store w) (Open Idle) (sent w) (log w))
    else (Raise OperationalError, w).

Definition execute {A} (q : statement A) : M A :=
  fun w =>
    match execute_on q (store w) (conn w) with
    | (inr a, c) => (Return a, World (store w) c (sent w) (log w))
    | (inl e, c) => (Raise e, World (store w) c (sent w) (log w))
    end.

Definition commit : M unit :=
  fun w =>
    match commit_on (store w) (conn w) with
    | (inr _, d, c) => (Return (), World d c (sent w) (log w))
    | (inl e, d, c) => (Raise e, World d c (sent w) (log w))
    end.

(** [cursor.close(); conn.close()] *)
Definition close : M unit :=
  fun w => (Return (), World (store w) Closed (sent w) (log w)).

Definition next_insert : M nat :=
  fun w => (Return (sent w), World (store w) (conn w) (S (sent w)) (log w)).

(** *** 1. Store probe (lines 18-27) *)

Definition select_version (E : env) : statement unit :=
  fun d => if version_ok E then Ok (d, ()) else Err ServerUnavailable.

Definition probe_store (E : env) : M unit :=
  try_except
    (connect E ;;
     execute (select_version E) ;;
     print "[OK] Database connection successful!")
    (fun e =>
       emit (PrintExn "[ERROR] Database connection failed: " e) ;;
       print "Please check your DATABASE_URL!" ;;
       exit 1).

(** *** 2. AI provider probe (lines 30-54) *)

Definition completion (E : env) (p : phase) (s : call_shape) : M unit :=
  emit (Call p s) ;;
  if ai_ok E p s then mret () else raise ApiError.

Definition probe_ai (E : env) : M unit :=
  try_except
    (try_bare
       (completion E Probe Modern ;;
        print "[OK] OpenAI API connection successful! (v1.0+)")
       (completion E Probe Legacy ;;
        print "[OK] OpenAI API connection successful! (v0.x)"))
    (fun e =>
       emit (PrintExn "[ERROR] OpenAI API connection failed: " e) ;;
       print "Please check your OPENAI_API_KEY!" ;;
       exit 1).

(** *** 3. Tables (lines 57-158) *)

Definition col (n : string) (t : sqltype) : column :=
  Column n t false false false NoDefault None.
Definition primary_key (c : column) : column :=
  Column (cname c) (ctype c) true (cnotnull c) (cunique c) (cdefault c)
    (creferences c).
Definition not_null (c : column) : column :=
  Column (cname c) (ctype c) (cpk c) true (cunique c) (cdefault c)
    (creferences c).
Definition unique (c : column) : column :=
  Column (cname c) (ctype c) (cpk c) (cnotnull c) true (cdefault c)
    (creferences c).
Definition with_default (d : default) (c : column) : column :=
  Column (cname c) (ctype c) (cpk c) (cnotnull c) (cunique c) d
    (creferences c).
Definition references (t k : string) (c : column) : column :=
  Column (cname c) (ctype c) (cpk c) (cnotnull c) (cunique c) (cdefault c)
    (Some (t, k)).

Definition id_column : column :=
  with_default GenRandomUuid (primary_key (col "id" UUID)).
Definition created_at : column :=
  with_default CurrentTimestamp (col "created_at" TIMESTAMP).
Definition updated_at : column :=
  with_default CurrentTimestamp (col "updated_at" TIMESTAMP).

Definition grants : table_def :=
  TableDef "grants" [
    id_column;
    not_null (col "title" (VARCHAR 500));
    col "agency" (VARCHAR 255);
    col "amount_min" (DECIMAL 15 2);
    col "amount_max" (DECIMAL 15 2);
    col "deadline" DATE;
    col "description" TEXT;
    col "category" (VARCHAR 100);
    col "keywords" TEXT;
    col "eligibility" TEXT;
    col "source" (VARCHAR 50);
    col "url" (VARCHAR 500);
    col "success_rate" (DECIMAL 5 2);
    created_at ].

Definition applications : table_def :=
  TableDef "applications" [
    id_column;
    col "user_email" (VARCHAR 255);
    col "organization_name" (VARCHAR 255);
    references "grants" "id" (col "grant_id" UUID);
    col "proposal_file_name" (VARCHAR 255);
    col "proposal_text" TEXT;
    col "success_probability" (DECIMAL 5 2);
    col "match_score" (DECIMAL 5 2);
    col "strengths" TEXT;
    col "weaknesses" TEXT;
    col "recommendations" TEXT;
    col "ai_analysis" JSONB;
    created_at ].

Definition analysis_history : table_def :=
  TableDef "analysis_history" [
    id_column;
    references "applications" "id" (col "application_id" UUID);
    col "openai_tokens_used" INTEGER;
    col "analysis_cost" (DECIMAL 10 4);
    col "processing_time_seconds" (DECIMAL 10 2);
    created_at ].

Definition users : table_def :=
  TableDef "users" [
    id_column;
    not_null (unique (col "email" (VARCHAR 255)));
    not_null (col "name" (VARCHAR 255));
    unique (col "google_id" (VARCHAR 255));
    col "picture" (VARCHAR 500);
    with_default (Const (VText "free")) (col "subscription_status" (VARCHAR 50));
    created_at;
    updated_at ].

Definition predictions : table_def :=
  TableDef "predictions" [
    id_column;
    references "users" "id" (col "user_id" UUID);
    not_null (col "organization_name" (VARCHAR 255));
    not_null (col "organization_type" (VARCHAR 100));
    not_null (col "funding_amount" INTEGER);
    not_null (col "experience_level" (VARCHAR 50));
    with_default (Const (VBool false)) (col "has_partnership" BOOLEAN);
    with_default (Const (VBool false)) (col "has_previous_grants" BOOLEAN);
    not_null (col "success_probability" INTEGER);
    not_null (col "confidence" (VARCHAR 20));
    with_default (Const (VBool false)) (col "ai_enhanced" BOOLEAN);
    col "recommendations" JSONB;
    created_at ].

Definition subscriptions : table_def :=
  TableDef "subscriptions" [
    id_column;
    references "users" "id" (col "user_id" UUID);
    unique (col "stripe_subscription_id" (VARCHAR 255));
    not_null (col "status" (VARCHAR 50));
    col "current_period_start" TIMESTAMP;
    col "current_period_end" TIMESTAMP;
    created_at;
    updated_at ].

(** The six statements in the order the script issues them. *)
Definition schema_statements : list table_def :=
  [ grants; applications; analysis_history; users; predictions; subscriptions ].

Definition create_statement (d : table_def) : statement unit :=
  fun s => rbind (create_table_if_not_exists d s) (fun s' => Ok (s', ())).

Fixpoint execute_all (ds : list table_def) : M unit :=
  match ds with
  | [] => mret ()
  | d :: ds' => execute (create_statement d) ;; execute_all ds'
  end.

Definition create_tables : M unit :=
  execute_all schema_statements ;;
  commit ;;
  print "[OK] Tables created successfully!".

(** *** 4. Sample grants (lines 161-282) *)

(** [success_rate] is in tenths: 32.5 is 325. *)
Record grant := Grant {
  title : string;
  agency : string;
  amount_min : Z;
  amount_max : Z;
  category : string;
  description : string;
  keywords : string;
  eligibility : string;
  success_rate : Z;
  url : string
}.

Definition sample_grants : list grant := [
  Grant "Environmental Innovation Grant 2024" "EPA" 50000 500000 "Environment"
    "Supporting innovative environmental protection technologies and research"
    "environment, climate, sustainability, green tech"
    "Non-profit organizations, educational institutions"
    325 "https://www.epa.gov/grants";
  Grant "Small Business Innovation Research (SBIR) Phase I" "NSF" 100000 275000
    "Technology"
    "Seed funding for technology startups and innovative small businesses"
    "technology, innovation, startup, R&D"
    "Small businesses with fewer than 500 employees"
    187 "https://www.nsf.gov/sbir";
  Grant "NIH Research Project Grant (R01)" "NIH" 250000 500000 "Health"
    "Support for health-related research and development"
    "health, medical, research, clinical"
    "Research institutions, universities"
    210 "https://grants.nih.gov";
  Grant "Education Innovation and Research Grant" "Department of Education"
    100000 4000000 "Education"
    "Supporting evidence-based innovations in education"
    "education, learning, schools, innovation"
    "Educational agencies, non-profits"
    153 "https://www.ed.gov/grants";
  Grant "Community Development Block Grant" "HUD" 50000 2000000
    "Community Development"
    "Funding for community development and housing projects"
    "community, housing, urban development"
    "Local governments, community organizations"
    289 "https://www.hud.gov/cdbg";
  Grant "Arts and Culture Grant Program" "NEA" 10000 100000 "Arts"
    "Supporting artistic excellence and cultural preservation"
    "arts, culture, music, theater, visual arts"
    "Arts organizations, individual artists"
    245 "https://www.arts.gov";
  Grant "Clean Energy Innovation Fund" "DOE" 500000 5000000 "Energy"
    "Advancing clean energy technologies and renewable solutions"
    "clean energy, solar, wind, renewable, battery"
    "Research institutions, energy companies"
    168 "https://www.energy.gov/grants";
  Grant "Rural Development Grant" "USDA" 25000 500000 "Agriculture"
    "Supporting rural communities and agricultural innovation"
    "rural, agriculture, farming, community development"
    "Rural communities, agricultural businesses"
    312 "https://www.usda.gov/rural" ].

(** [random.randint(lo, hi)] drawn from a raw random number. *)
Definition randint (lo hi raw : Z) : Z := lo + raw mod (hi - lo + 1).

(** The column list and the parameter tuple of the INSERT. *)
Definition insert_parameters (g : grant) (deadline : Z) : list (string * value) :=
  [ ("title", VText (title g));
    ("agency", VText (agency g));
    ("amount_min", VNum (amount_min g) 0);
    ("amount_max", VNum (amount_max g) 0);
    ("deadline", VDate deadline);
    ("description", VText (description g));
    ("category", VText (category g));
    ("keywords", VText (keywords g));
    ("eligibility", VText (eligibility g));
    ("source", VText "Government");
    ("url", VText (url g));
    ("success_rate", VNum (success_rate g) 1) ].

Definition insert_grant (E : env) (g : grant) (deadline : Z) : M nat :=
  n ← next_insert;
  execute (insert_on_conflict_do_nothing (uuid E n) (now E) "grants"
             (insert_parameters g deadline)).

(** The body of the [for] loop for the [i]-th record. *)
Definition seed_one (E : env) (i : nat) (g : grant) (inserted_count : nat)
  : M nat :=
  let deadline := today E + randint 30 180 (entropy E i) in
  try_except
    (rowcount ← insert_grant E g deadline;
     mret (if (0 <? rowcount)%nat then S inserted_count else inserted_count))
    (fun e =>
       emit (PrintExn ("[WARNING] Failed to insert grant: " +:+ title g +:+ ": ") e) ;;
       mret inserted_count).

Fixpoint seed_loop (E : env) (i : nat) (gs : list grant) (inserted_count : nat)
  : M nat :=
  match gs with
  | [] => mret inserted_count
  | g :: gs' =>
      n ← seed_one E i g inserted_count;
      seed_loop E (S i) gs' n
  end.

Definition seed_report (inserted_count : nat) : string :=
  "[OK] " +:+ pretty inserted_count +:+ " new Grant records added!".

Definition seed_grants (E : env) : M nat :=
  inserted_count ← seed_loop E 0 sample_grants 0;
  commit ;;
  print (seed_report inserted_count) ;;
  mret inserted_count.

(** *** 5-8. Status, info file, smoke test, listing, close (lines 285-395) *)

Definition status_line (label : string) (n : nat) : string :=
  "   - " +:+ label +:+ ": " +:+ pretty n.

Definition write_info_file (E : env) (grant_count : nat) : M unit :=
  if file_ok E then emit (WriteFile "connection_info.txt" grant_count)
  else raise OSError.

(** [result = response.choices[0].message.content] *)
Definition read_answer (E : env) (c : call_shape) : M (option string) :=
  match answer E c with
  | Some content => mret content
  | None => raise ResponseError
  end.

(** [result[:300] + "..." if len(result) > 300 else result], for a text of
    one-byte characters. *)
Definition shown (text : string) : string :=
  if (300 <? String.length text)%nat then String.substring 0 300 text +:+ "..."
  else text.

(** Line 361: [len] of a null content raises, and so does [print] when the
    console cannot encode the text. *)
Definition print_result (E : env) (result : option string) : M unit :=
  match result with
  | None => raise TypeError
  | Some text =>
      if console_ok E (shown text) then print (shown text)
      else raise UnicodeEncodeError
  end.

Definition smoke_test (E : env) : M unit :=
  try_except
    (result ← try_bare
                (completion E SmokeTest Modern ;; read_answer E Modern)
                (completion E SmokeTest Legacy ;; read_answer E Legacy);
     print "[OK] AI analysis test successful!" ;;
     print_result E result)
    (fun e => emit (PrintExn "[WARNING] AI analysis test failed: " e)).

Definition listed_columns : list string :=
  [ "title"; "agency"; "amount_min"; "amount_max"; "category"; "success_rate" ].

(** [SELECT title, ... FROM grants ORDER BY success_rate DESC LIMIT 5]:
    only whether the statement is accepted matters here. *)
Definition select_listing : statement unit :=
  fun s =>
    match s !! "grants" with
    | None => Err (UndefinedTable "grants")
    | Some tb =>
        match first_unknown_column (tdef tb) (map (fun c => (c, ())) listed_columns) with
        | Some c => Err (UndefinedColumn "grants" c)
        | None => Ok (s, ())
        end
    end.

Definition format_rows (E : env) : M unit :=
  fun w => if format_ok E (store w) then (Return (), w) else (Raise FormatError, w).

Definition list_grants (E : env) : M unit :=
  execute select_listing ;;
  format_rows E.

Definition report (E : env) : M unit :=
  grant_count ← execute (select_count "grants");
  user_count ← execute (select_count "users");
  prediction_count ← execute (select_count "predictions");
  print (status_line "Total Grants" grant_count) ;;
  print (status_line "Total Users" user_count) ;;
  print (status_line "Total Predictions" prediction_count) ;;
  write_info_file E grant_count ;;
  print "[OK] connection_info.txt file created" ;;
  smoke_test E ;;
  list_grants E ;;
  print "SETUP COMPLETE!" ;;
  close.

(** *** The whole script *)

Definition main (E : env) : M unit :=
  probe_store E ;;
  probe_ai E ;;
  create_tables ;;
  seed_grants E ;;
  report E.

(** The exit status of the process: an uncaught exception ends it with 1. *)
Definition exit_code {A} (o : outcome A) : Z :=
  match o with
  | Return _ => 0
  | Raise _ => 1
  | Exit c => c
  end.

(** A fresh process against a store. *)
Definition boot (s : db) : world := World s NotConnected 0 [].

Definition run (E : env) (s : db) : Z * world :=
  let (o, w) := main E (boot s) in (exit_code o, w).

(** *** Vocabulary of the properties *)

(** The store as the next statement of the script sees it. *)
Definition view (w : world) : db :=
  match conn w with
  | Open (InTxn d) => d
  | _ => store w
  end.

(** A world whose connection is open and has no transaction running. *)
Definition connected (s : db) : world := World s (Open Idle) 0 [].

(** The CREATE statements alone, on a view of the store. *)
Fixpoint ddl_all (ds : list table_def) (v : db) : result db :=
  match ds with
  | [] => Ok v
  | d :: ds' => rbind (create_table_if_not_exists d v) (ddl_all ds')
  end.

(** Table [d] is in the store as the script defines it. *)
Definition has (v : db) (d : table_def) : Prop :=
  def_of v (tname d) = Some (tcols d).

(** The tables of [ds] that the store holds are as the script defines
    them: the state in which an earlier run of the script, complete or
    not, leaves a store. *)
Definition agrees (ds : list table_def) (v : db) : Prop :=
  ∀ d tb, d ∈ ds → v !! tname d = Some tb → tdef tb = tcols d.

Definition has_key (d : table_def) (k : string) : bool :=
  match find_column (tcols d) k with
  | Some kc => is_key kc
  | None => false
  end.

(** Column [c] references nothing, or a key of a table of [seen]. *)
Definition refers_into (seen : list table_def) (c : column) : bool :=
  match creferences c with
  | None => true
  | Some (t, k) =>
      existsb (fun d => bool_decide (tname d = t) && has_key d k) seen
  end.

(** Each statement of [ds] references only tables of [seen] or of
    statements before it. *)
Fixpoint dependency_ordered (seen ds : list table_def) : bool :=
  match ds with
  | [] => true
  | d :: ds' =>
      forallb (refers_into seen) (tcols d)
      && dependency_ordered (seen ++ [d]) ds'
  end.


Definition from_government (r : row) : Prop :=
  row_get r "source" = VText "Government".

Definition calls (l : list event) : list (phase * call_shape) :=
  omap (fun e => match e with Call p c => Some (p, c) | _ => None end) l.

Definition titles (rows : list row) : list value :=
  map (fun r => row_get r "title") rows.

(** *** Sample environments and stores *)

(** Everything answers; the ids generated in this run start at [base]. *)
Definition all_up (base : Z) : env :=
  Env true true (fun _ _ => true) (fun n j => base + Z.of_nat n)
    (fun i => Z.of_nat i) 20000 0 true (fun _ => true)
    (fun _ => Some (Some "Success probability: 70%")) (fun _ => true).

(** The AI provider rejects both call shapes. *)
Definition ai_down : env :=
  Env true true (fun _ _ => false) (fun n j => Z.of_nat n)
    (fun i => Z.of_nat i) 20000 0 true (fun _ => true)
    (fun _ => None) (fun _ => true).

(** The store cannot be reached. *)
Definition store_down : env :=
  Env false true (fun _ _ => true) (fun n j => Z.of_nat n)
    (fun i => Z.of_nat i) 20000 0 true (fun _ => true)
    (fun _ => Some (Some "Success probability: 70%")) (fun _ => true).

(** A [grants] table left by an older layout, whose titles hold at most 40
    characters; the other columns are those of the script. *)
Definition narrow_grants : table_def :=
  TableDef "grants" [
    id_column;
    not_null (col "title" (VARCHAR 40));
    col "agency" (VARCHAR 255);
    col "amount_min" (DECIMAL 15 2);
    col "amount_max" (DECIMAL 15 2);
    col "deadline" DATE;
    col "description" TEXT;
    col "category" (VARCHAR 100);
    col "keywords" TEXT;
    col "eligibility" TEXT;
    col "source" (VARCHAR 50);
    col "url" (VARCHAR 500);
    col "success_rate" (DECIMAL 5 2);
    created_at ].

Definition narrow_store : db := {[ "grants" := Table (tcols narrow_grants) [] ]}.

End Setup.

(* ===================================================================== *)
(** ** Facts about the store *)
(* ===================================================================== *)

Import Sql Psycopg Setup.

Section StoreFacts.

Lemma rows_of_insert_ne (s : db) (t u : string) (tb : table) :
  t ≠ u → rows_of (<[t := tb]> s) u = rows_of s u.
Proof. intros Hne. unfold rows_of. by rewrite lookup_insert_ne. Qed.

Lemma rows_of_insert_eq (s : db) (t : string) (tb : table) :
  rows_of (<[t := tb]> s) t = trows tb.
Proof. unfold rows_of. by rewrite lookup_insert_eq. Qed.

(** A conditional create never touches a row. *)
Lemma create_keeps_rows (d : table_def) (v v' : db) (t : string) :
  create_table_if_not_exists d v = Ok v' → rows_of v' t = rows_of v t.
Proof.
  unfold create_table_if_not_exists.
  destruct (v !! tname d) as [tb|] eqn:Hd.
  - by intros [= <-].
  - destruct (first_bad_reference v (tcols d)); [done|].
    intros [= <-]. destruct (decide (tname d = t)) as [<-|Hne].
    + rewrite rows_of_insert_eq. unfold rows_of. by rewrite Hd.
    + by apply rows_of_insert_ne.
Qed.

(** A conditional create keeps every table that was there. *)
Lemma create_keeps_tables (d : table_def) (v v' : db) (t : string) (tb : table) :
  create_table_if_not_exists d v = Ok v' → v !! t = Some tb → v' !! t = Some tb.
Proof.
  unfold create_table_if_not_exists.
  destruct (v !! tname d) as [tb'|] eqn:Hd.
  - by intros [= <-].
  - destruct (first_bad_reference v (tcols d)); [done|].
    intros [= <-] Ht. rewrite lookup_insert_ne; [done|]. congruence.
Qed.

Lemma first_bad_reference_none (s : db) (cols : list column) (c : column) :
  first_bad_reference s cols = None → c ∈ cols → reference_ok s c = true.
Proof.
  induction cols as [|c' cols IH]; simpl.
  - intros _ Hin. by apply elem_of_nil in Hin.
  - destruct (reference_ok s c') eqn:Hok; [|done].
    intros Hnone [->|Hin]%elem_of_cons; auto.
Qed.

(** A table that the statement really creates finds its referents. *)
Lemma create_needs_referent (d : table_def) (v v' : db) (c : column) (t k : string) :
  create_table_if_not_exists d v = Ok v' →
  v !! tname d = None →
  c ∈ tcols d → creferences c = Some (t, k) →
  is_Some (v !! t).
Proof.
  unfold create_table_if_not_exists. intros Hc Hd Hin Href.
  rewrite Hd in Hc.
  destruct (first_bad_reference v (tcols d)) eqn:Hbad; [done|].
  pose proof (first_bad_reference_none _ _ _ Hbad Hin) as Hok.
  unfold reference_ok in Hok. rewrite Href in Hok.
  destruct (v !! t); [eauto | done].
Qed.

(** An insert into [t] touches the rows of [t] only, and at most by
    appending one row. *)
Lemma insert_appends rnd nw (t : string) given (v v' : db) (n : nat) :
  insert_on_conflict_do_nothing rnd nw t given v = Ok (v', n) →
  (∀ u, u ≠ t → rows_of v' u = rows_of v u) ∧
  (rows_of v' t = rows_of v t ∨
   ∃ tb r, v !! t = Some tb ∧
           rmap (column_value rnd nw given) (imap pair (tdef tb)) = Ok r ∧
           first_unknown_column (tdef tb) given = None ∧
           rows_of v' t = (rows_of v t ++ [r])%list).
Proof.
  unfold insert_on_conflict_do_nothing.
  destruct (v !! t) as [tb|] eqn:Ht; [|done].
  destruct (first_unknown_column (tdef tb) given) eqn:Hunk; [done|].
  destruct (rmap _ _) as [r|] eqn:Hr; [|done]. simpl.
  destruct (first_null_violation (tdef tb) r); [done|].
  destruct (conflicts (tdef tb) (trows tb) r).
  { intros [= <- <-]. auto. }
  destruct (first_dangling_reference v (tdef tb) r); [done|].
  intros [= <- <-]. split.
  - intros u Hne. by apply rows_of_insert_ne.
  - right. exists tb, r. repeat split; [done..|].
    rewrite rows_of_insert_eq. unfold rows_of. by rewrite Ht.
Qed.

End StoreFacts.

Section RowFacts.

Lemma coerce_text (c : string) (t : sqltype) (x : string) (v : value) :
  coerce c t (VText x) = Ok v → v = VText x.
Proof.
  destruct t; simpl; try done.
  - destruct (_ <=? _)%nat; [|done]. by intros [= <-].
  - by intros [= <-].
Qed.

Lemma imap_pair_snd {A B} (g : nat → B) (l : list A) :
  (imap (λ j x, (g j, x)) l).*2 = l.
Proof.
  revert g. induction l as [|x l IH]; intros g; [done|].
  simpl. f_equal. apply (IH (g ∘ S)).
Qed.

Lemma unknown_column_none {A} (cols : list column) (given : list (string * A))
    (c : string) (a : A) :
  first_unknown_column cols given = None → assoc c given = Some a →
  c ∈ cname <$> cols.
Proof.
  induction given as [|[c' a'] given IH]; simpl; [done|].
  destruct (find_column cols c') as [col|] eqn:Hfind; [|done].
  intros Hnone. destruct (decide (c = c')) as [->|Hne]; [|by auto].
  intros _. apply List.find_some in Hfind as [Hin Hname].
  apply bool_decide_eq_true in Hname. subst c'.
  apply list_elem_of_fmap. exists col. split; [done|].
  by apply list_elem_of_In.
Qed.

(** The value stored in a given column is the supplied value, as the
    first column of that name converts it. *)
Lemma row_holds_given rnd nw given (jcs : list (nat * column)) (r : row)
    (c : string) (v : value) :
  rmap (column_value rnd nw given) jcs = Ok r →
  assoc c given = Some v →
  c ∈ cname <$> jcs.*2 →
  ∃ t, coerce c t v = Ok (row_get r c).
Proof.
  revert r. induction jcs as [|[j col] jcs IH]; intros r; simpl.
  - intros _ _ Hin. by apply elem_of_nil in Hin.
  - destruct (assoc (cname col) given) as [v0|] eqn:Hgiven; simpl.
    + destruct (coerce (cname col) (ctype col) v0) as [v1|] eqn:Hco; [|done].
      simpl. destruct (rmap _ jcs) as [r'|] eqn:Hr'; [|done]. simpl.
      intros [= <-] Hv Hin. unfold row_get. simpl.
      destruct (decide (c = cname col)) as [->|Hne].
      * exists (ctype col). congruence.
      * apply elem_of_cons in Hin as [?|Hin]; [done|].
        by apply (IH r').
    + destruct (rmap _ jcs) as [r'|] eqn:Hr'; [|done]. simpl.
      intros [= <-] Hv Hin. unfold row_get. simpl.
      destruct (decide (c = cname col)) as [->|Hne]; [congruence|].
      apply elem_of_cons in Hin as [?|Hin]; [done|].
      by apply (IH r').
Qed.

(** The seeding INSERT appends nothing, or one row whose source is
    "Government". *)
Lemma insert_grant_row rnd nw (g : grant) (dl : Z) (v v' : db) (n : nat) :
  insert_on_conflict_do_nothing rnd nw "grants" (insert_parameters g dl) v
    = Ok (v', n) →
  ∃ new, rows_of v' "grants" = (rows_of v "grants" ++ new)%list ∧
         Forall from_government new.
Proof.
  intros [_ [Hsame | (tb & r & Ht & Hr & Hunk & Hrows)]]%insert_appends.
  - exists []. by rewrite app_nil_r.
  - exists [r]. split; [done|]. constructor; [|constructor].
    assert (assoc "source" (insert_parameters g dl) = Some (VText "Government"))
      as Hsrc by reflexivity.
    destruct (row_holds_given _ _ _ _ _ _ _ Hr Hsrc) as [t Hco].
    + rewrite (imap_pair_snd id). by eapply unknown_column_none.
    + unfold from_government. by apply coerce_text in Hco.
Qed.

End RowFacts.

(* ===================================================================== *)
(** ** Reasoning about the script *)
(* ===================================================================== *)

Section Triples.

(** [triple P m Q]: from a world in [P], [m] ends in an outcome and a
    world related by [Q]. Every program of [M] is a total function, so
    this is a statement about a run that does end. *)
Definition triple {A} (P : world → Prop) (m : M A)
    (Q : outcome A → world → Prop) : Prop :=
  ∀ w, P w → Q (m w).1 (m w).2.

Lemma triple_bind {A B} (P : world → Prop) (m : M A) (f : A → M B)
    (R : A → world → Prop) (Q : outcome B → world → Prop) :
  triple P m (λ o w, match o with
                     | Return a => R a w
                     | Raise e => Q (Raise e) w
                     | Exit c => Q (Exit c) w
                     end) →
  (∀ a, triple (R a) (f a) Q) →
  triple P (m ≫= f) Q.
Proof.
  intros Hm Hf w HP. specialize (Hm w HP).
  unfold mbind, M_bind. destruct (m w) as [[a|e|c] w']; simpl in *; auto.
  by apply Hf.
Qed.

End Triples.

Section Invariant.

(** [R v v'] relates a store to a later one. The script keeps [R] between
    the store it found and both the committed store and the view of its
    open transaction, provided its two writing statements keep [R]. *)
Variable R : db → db → Prop.
Hypothesis R_refl : ∀ v, R v v.
Hypothesis R_trans : ∀ a b c, R a b → R b c → R a c.
Hypothesis R_create : ∀ d v v',
  create_table_if_not_exists d v = Ok v' → R v v'.
Hypothesis R_insert : ∀ rnd nw g dl v v' n,
  insert_on_conflict_do_nothing rnd nw "grants" (insert_parameters g dl) v
    = Ok (v', n) → R v v'.

Variable s : db.

Definition live (w : world) : Prop :=
  R s (store w) ∧
  match conn w with
  | Open (InTxn v) => R s v
  | Open _ => True
  | _ => False
  end.

Definition fine {A} (o : outcome A) (w : world) : Prop :=
  live w ∧ match o with Exit c => c = 1 | _ => True end.

Definition finished {A} (o : outcome A) (w : world) : Prop :=
  R s (store w) ∧
  match o with
  | Return _ => conn w = Closed
  | Raise _ => ∃ t, conn w = Open t
  | Exit c => c = 1 ∧ ∃ t, conn w = Open t
  end.

Lemma live_open (w : world) : live w → ∃ t, conn w = Open t.
Proof. intros [_ H]. destruct (conn w); [done | eauto | done]. Qed.

Lemma fine_bind {A B} (m : M A) (f : A → M B) :
  triple live m fine → (∀ a, triple live (f a) fine) →
  triple live (m ≫= f) fine.
Proof.
  intros Hm Hf. apply triple_bind with (R := λ _, live); [|done].
  intros w Hw. destruct (Hm w Hw) as [Hl Hc].
  destruct (m w) as [[a|e|c] w']; simpl in *; first [done | by split].
Qed.

Lemma finished_bind {A B} (m : M A) (f : A → M B) :
  triple live m fine → (∀ a, triple live (f a) finished) →
  triple live (m ≫= f) finished.
Proof.
  intros Hm Hf. apply triple_bind with (R := λ _, live); [|done].
  intros w Hw. destruct (Hm w Hw) as [Hl Hc].
  destruct (m w) as [[a|e|c] w']; simpl in *.
  - exact Hl.
  - split; [apply Hl | by apply live_open].
  - split; [apply Hl | split; [done | by apply live_open]].
Qed.

Lemma fine_try_except {A} (body : M A) (handler : exn → M A) :
  triple live body fine → (∀ e, triple live (handler e) fine) →
  triple live (try_except body handler) fine.
Proof.
  intros Hb Hh w Hw. unfold try_except. specialize (Hb w Hw).
  destruct (body w) as [[a|e|c] w']; simpl in *; [done| |done].
  apply Hh, Hb.
Qed.

Lemma fine_try_bare {A} (body handler : M A) :
  triple live body fine → triple live handler fine →
  triple live (try_bare body handler) fine.
Proof.
  intros Hb Hh w Hw. unfold try_bare. specialize (Hb w Hw).
  destruct (body w) as [[a|e|c] w']; simpl in *; [done|..]; apply Hh, Hb.
Qed.

Lemma fine_ret {A} (a : A) : triple live (mret a) fine.
Proof. by intros w Hw. Qed.

Lemma fine_raise {A} (e : exn) : triple live (@raise A e) fine.
Proof. by intros w Hw. Qed.

Lemma fine_exit_1 {A} : triple live (@exit A 1) fine.
Proof. by intros w Hw. Qed.

Lemma fine_emit (e : event) : triple live (emit e) fine.
Proof. by intros [] Hw. Qed.

Lemma fine_next_insert : triple live next_insert fine.
Proof. by intros [] Hw. Qed.

Lemma fine_format_rows (E : env) : triple live (format_rows E) fine.
Proof. intros w Hw. unfold format_rows. by destruct (format_ok E (store w)). Qed.

Lemma fine_execute {A} (q : statement A) :
  (∀ v v' a, q v = Ok (v', a) → R v v') → triple live (execute q) fine.
Proof.
  intros Hq [st c n l] [Hs Hc]. simpl in *.
  destruct c as [|[|v|]|]; try done; unfold execute, execute_on; simpl.
  - destruct (q st) as [[d a]|e] eqn:Hr; simpl; repeat split; simpl; eauto.
  - destruct (q v) as [[d a]|e] eqn:Hr; simpl; repeat split; simpl; eauto.
Qed.

Lemma fine_commit : triple live commit fine.
Proof.
  intros [st c n l] [Hs Hc]. simpl in *.
  by destruct c as [|[|v|]|].
Qed.

Lemma finished_close : triple live close finished.
Proof. by intros [st c n l] [Hs Hc]. Qed.

(** The reading statements return the view they were given. *)
Lemma select_count_reads (t : string) (v v' : db) (n : nat) :
  select_count t v = Ok (v', n) → R v v'.
Proof. unfold select_count. destruct (v !! t); [|done]. by intros [= <- _]. Qed.

Lemma select_listing_reads (v v' : db) (u : unit) :
  select_listing v = Ok (v', u) → R v v'.
Proof.
  unfold select_listing. destruct (v !! "grants"); [|done].
  destruct (first_unknown_column _ _); [done|]. by intros [= <-].
Qed.

Lemma create_statement_keeps (d : table_def) (v v' : db) (u : unit) :
  create_statement d v = Ok (v', u) → R v v'.
Proof.
  unfold create_statement.
  destruct (create_table_if_not_exists d v) eqn:Hc; [|done].
  intros [= <-]. eauto.
Qed.

(** *** The phases of the script keep the invariant *)

Ltac structure :=
  repeat lazymatch goal with
    | |- triple _ (mbind _ _) _ => apply fine_bind; [|intros ?; cbv beta]
    | |- triple _ (try_except _ _) _ =>
        apply fine_try_except; [|intros ?; cbv beta]
    | |- triple _ (try_bare _ _) _ => apply fine_try_bare
    | |- triple _ (emit _) _ => apply fine_emit
    | |- triple _ (print _) _ => apply fine_emit
    | |- triple _ (mret _) _ => apply fine_ret
    | |- triple _ (raise _) _ => apply fine_raise
    | |- triple _ (exit _) _ => apply fine_exit_1
    | |- triple _ next_insert _ => apply fine_next_insert
    | |- triple _ commit _ => apply fine_commit
    | |- triple _ (format_rows _) _ => apply fine_format_rows
    end.

Lemma fine_completion (E : env) (p : phase) (c : call_shape) :
  triple live (completion E p c) fine.
Proof. unfold completion. structure. destruct (ai_ok E p c); structure. Qed.

Lemma fine_probe_ai (E : env) : triple live (probe_ai E) fine.
Proof. unfold probe_ai. structure; apply fine_completion. Qed.

Lemma fine_execute_all (ds : list table_def) :
  triple live (execute_all ds) fine.
Proof.
  induction ds as [|d ds IH]; simpl; structure; [|done].
  apply fine_execute, create_statement_keeps.
Qed.

Lemma fine_create_tables : triple live create_tables fine.
Proof. unfold create_tables. structure. apply fine_execute_all. Qed.

Lemma fine_insert_grant (E : env) (g : grant) (dl : Z) :
  triple live (insert_grant E g dl) fine.
Proof.
  unfold insert_grant. structure. apply fine_execute.
  intros v v' n. apply R_insert.
Qed.

Lemma fine_seed_one (E : env) (i : nat) (g : grant) (k : nat) :
  triple live (seed_one E i g k) fine.
Proof. unfold seed_one. structure. apply fine_insert_grant. Qed.

Lemma fine_seed_loop (E : env) (gs : list grant) (i k : nat) :
  triple live (seed_loop E i gs k) fine.
Proof.
  revert i k. induction gs as [|g gs IH]; intros i k; simpl; structure.
  - apply fine_seed_one.
  - apply IH.
Qed.

Lemma fine_seed_grants (E : env) : triple live (seed_grants E) fine.
Proof. unfold seed_grants. structure. apply fine_seed_loop. Qed.

Lemma fine_write_info_file (E : env) (n : nat) :
  triple live (write_info_file E n) fine.
Proof. unfold write_info_file. destruct (file_ok E); structure. Qed.

Lemma fine_read_answer (E : env) (c : call_shape) :
  triple live (read_answer E c) fine.
Proof. unfold read_answer. destruct (answer E c); structure. Qed.

Lemma fine_print_result (E : env) (r : option string) :
  triple live (print_result E r) fine.
Proof.
  unfold print_result. destruct r as [text|]; [|structure].
  destruct (console_ok E (shown text)); structure.
Qed.

Lemma fine_smoke_test (E : env) : triple live (smoke_test E) fine.
Proof.
  unfold smoke_test. structure;
    first [ apply fine_completion | apply fine_read_answer
          | apply fine_print_result ].
Qed.

Lemma fine_list_grants (E : env) : triple live (list_grants E) fine.
Proof.
  unfold list_grants. structure. apply fine_execute, select_listing_reads.
Qed.

Ltac to_the_end :=
  repeat lazymatch goal with
    | |- triple _ (mbind _ _) finished =>
        apply finished_bind; [|intros ?; cbv beta]
    | |- triple _ close finished => apply finished_close
    end.

Lemma finished_report (E : env) : triple live (report E) finished.
Proof.
  unfold report. to_the_end; structure;
    first [ apply fine_execute, select_count_reads
          | apply fine_write_info_file
          | apply fine_smoke_test
          | apply fine_list_grants ].
Qed.

(** Everything after the store probe. *)
Lemma finished_after_probe (E : env) :
  triple live
    (probe_ai E ;; create_tables ;; seed_grants E ;; report E) finished.
Proof.
  to_the_end;
    first [ apply fine_probe_ai | apply fine_create_tables
          | apply fine_seed_grants | apply finished_report ].
Qed.

(** The store probe of a fresh process. *)
Lemma probe_store_boot (E : env) :
  probe_store E (boot s) =
    if connect_ok E then
      if version_ok E then
        (Return (),
         World s (Open (InTxn s)) 0
           [Print "[OK] Database connection successful!"])
      else
        (Exit 1,
         World s (Open Aborted) 0
           [PrintExn "[ERROR] Database connection failed: "
              (DatabaseError ServerUnavailable);
            Print "Please check your DATABASE_URL!"])
    else
      (Exit 1,
       World s NotConnected 0
         [PrintExn "[ERROR] Database connection failed: " OperationalError;
          Print "Please check your DATABASE_URL!"]).
Proof.
  unfold probe_store, try_except, mbind, M_bind, connect, execute,
    execute_on, select_version. simpl.
  destruct (connect_ok E); [|done]. simpl. by destruct (version_ok E).
Qed.

Definition ended (E : env) (o : outcome unit) (w : world) : Prop :=
  R s (store w) ∧
  match o with
  | Return _ => conn w = Closed
  | Raise _ => connect_ok E = true ∧ ∃ t, conn w = Open t
  | Exit c =>
      c = 1 ∧
      if connect_ok E then ∃ t, conn w = Open t else conn w = NotConnected
  end.

Lemma main_unfold (E : env) (w : world) :
  main E w =
    match probe_store E w with
    | (Return _, w') =>
        (probe_ai E ;; create_tables ;; seed_grants E ;; report E) w'
    | (Raise e, w') => (Raise e, w')
    | (Exit c, w') => (Exit c, w')
    end.
Proof. reflexivity. Qed.

Lemma main_ends (E : env) : ended E (main E (boot s)).1 (main E (boot s)).2.
Proof.
  rewrite main_unfold, probe_store_boot.
  destruct (connect_ok E) eqn:Hc; [destruct (version_ok E) eqn:Hv|].
  - cbv beta iota.
    set (w0 := World s (Open (InTxn s)) 0
                 [Print "[OK] Database connection successful!"]).
    assert (live w0) as Hl by (split; simpl; auto).
    destruct (finished_after_probe E w0 Hl) as [Hs Ho]. unfold ended.
    destruct ((probe_ai E ;; create_tables ;; seed_grants E ;; report E) w0)
      as [[[]|e|c] w']; simpl in *; rewrite ?Hc; tauto.
  - unfold ended. simpl. rewrite Hc. eauto.
  - unfold ended. simpl. rewrite Hc. eauto.
Qed.

End Invariant.

(* ===================================================================== *)
(** ** The CREATE statements *)
(* ===================================================================== *)

Section SchemaFacts.

(** What a successful [execute] says about the views before and after. *)
Lemma execute_view {A} (q : statement A) (w w' : world) (a : A) :
  execute q w = (Return a, w') → q (view w) = Ok (view w', a).
Proof.
  destruct w as [st c n l]. unfold execute, execute_on, view. simpl.
  destruct c as [|[|v|]|]; simpl; try done.
  - destruct (q st) as [[d a']|e]; [|done]. by intros [= <- <-].
  - destruct (q v) as [[d a']|e]; [|done]. by intros [= <- <-].
Qed.

Lemma execute_all_view (ds : list table_def) (w w' : world) :
  execute_all ds w = (Return (), w') → ddl_all ds (view w) = Ok (view w').
Proof.
  revert w. induction ds as [|d ds IH]; intros w; simpl.
  - by intros [= <-].
  - unfold mbind, M_bind.
    destruct (execute (create_statement d) w) as [[[]|e|c] w1] eqn:Hd; [|done..].
    apply execute_view in Hd. unfold create_statement in Hd.
    destruct (create_table_if_not_exists d (view w)) as [v1|]; [|done].
    simpl in *. injection Hd as ->. apply IH.
Qed.

(** On a usable connection the statements run as [ddl_all] says. *)
Lemma execute_all_runs (ds : list table_def) (w : world) (t : txn) (v' : db) :
  conn w = Open t → t ≠ Aborted → ddl_all ds (view w) = Ok v' →
  ∃ t', execute_all ds w = (Return (), World (store w) (Open t') (sent w) (log w))
        ∧ t' ≠ Aborted
        ∧ match t' with InTxn d => d | _ => store w end = v'.
Proof.
  revert w t. induction ds as [|d ds IH]; intros [st c n l] t; simpl.
  - intros -> Ht [= <-]. exists t. unfold view. simpl. by destruct t.
  - intros -> Ht.
    destruct (create_table_if_not_exists d _) as [v1|] eqn:Hc; [|done]. simpl.
    intros Hrest.
    assert (execute (create_statement d) (World st (Open t) n l)
            = (Return (), World st (Open (InTxn v1)) n l)) as Hex.
    { unfold execute, execute_on, create_statement. unfold view in Hc.
      simpl in *. destruct t; [|..|done]; by rewrite Hc. }
    unfold mbind, M_bind. rewrite Hex.
    apply (IH (World st (Open (InTxn v1)) n l) (InTxn v1)); done.
Qed.

Lemma ddl_all_keeps_tables (ds : list table_def) (v v' : db) (t : string)
    (tb : table) :
  ddl_all ds v = Ok v' → v !! t = Some tb → v' !! t = Some tb.
Proof.
  revert v. induction ds as [|d ds IH]; intros v; simpl.
  - by intros [= <-].
  - destruct (create_table_if_not_exists d v) as [v1|] eqn:Hc; [|done]. simpl.
    intros Hrest Ht. apply (IH v1); [done|]. by eapply create_keeps_tables.
Qed.

Lemma create_makes_table (d : table_def) (v v' : db) :
  create_table_if_not_exists d v = Ok v' → is_Some (v' !! tname d).
Proof.
  unfold create_table_if_not_exists.
  destruct (v !! tname d) as [tb|] eqn:Hd.
  - intros [= <-]. eauto.
  - destruct (first_bad_reference v (tcols d)); [done|].
    intros [= <-]. rewrite lookup_insert_eq. eauto.
Qed.

(** Every statement that ran leaves its table in the store. *)
Lemma ddl_all_makes_tables (ds : list table_def) (v v' : db) (d : table_def) :
  ddl_all ds v = Ok v' → d ∈ ds → is_Some (v' !! tname d).
Proof.
  revert v. induction ds as [|d0 ds IH]; intros v; simpl.
  - intros _ Hin. by apply elem_of_nil in Hin.
  - destruct (create_table_if_not_exists d0 v) as [v1|] eqn:Hc; [|done]. simpl.
    intros Hrest [->|Hin]%elem_of_cons; [|by eapply IH].
    destruct (create_makes_table _ _ _ Hc) as [tb Htb].
    exists tb. by eapply ddl_all_keeps_tables.
Qed.

(** In a dependency-ordered list a referent is named by an earlier
    statement (or by [seen]). *)
Lemma ordered_referent_before (ds seen : list table_def) (i : nat)
    (d : table_def) (c : column) (t k : string) :
  dependency_ordered seen ds = true →
  ds !! i = Some d → c ∈ tcols d → creferences c = Some (t, k) →
  ∃ d', d' ∈ seen ++ take i ds ∧ tname d' = t ∧ has_key d' k = true.
Proof.
  revert seen i. induction ds as [|d0 ds IH]; intros seen i; simpl; [done|].
  intros [Hhere Hrest]%andb_prop Hi Hc Href.
  destruct i as [|i]; simpl in *.
  - injection Hi as ->. rewrite app_nil_r.
    rewrite forallb_forall in Hhere.
    apply list_elem_of_In, Hhere in Hc. unfold refers_into in Hc.
    rewrite Href in Hc. apply existsb_exists in Hc as (d' & Hin & Hd').
    apply andb_prop in Hd' as [Hn Hk]. apply bool_decide_eq_true in Hn.
    exists d'. by rewrite list_elem_of_In.
  - destruct (IH (seen ++ [d0]) i Hrest Hi Hc Href) as (d' & Hin & Hd').
    exists d'. split; [|done]. by rewrite <- app_assoc in Hin.
Qed.

Lemma has_lookup (v : db) (d : table_def) :
  has v d ↔ ∃ tb, v !! tname d = Some tb ∧ tdef tb = tcols d.
Proof.
  unfold has, def_of. destruct (v !! tname d) as [tb|]; simpl; split.
  - intros [= <-]. eauto.
  - intros (tb' & [= <-] & ->). done.
  - done.
  - by intros (tb' & ? & ?).
Qed.

Lemma reference_found (seen : list table_def) (v : db) (c : column) :
  (∀ d, d ∈ seen → has v d) → refers_into seen c = true →
  reference_ok v c = true.
Proof.
  unfold refers_into, reference_ok. intros Hseen.
  destruct (creferences c) as [[t k]|]; [|done].
  intros (d & Hin & Hd)%existsb_exists.
  apply andb_prop in Hd as [Hn Hk]. apply bool_decide_eq_true in Hn. subst t.
  apply list_elem_of_In, Hseen, has_lookup in Hin as (tb & -> & ->).
  exact Hk.
Qed.

Lemma no_bad_reference (seen : list table_def) (v : db) (cols : list column) :
  (∀ d, d ∈ seen → has v d) → forallb (refers_into seen) cols = true →
  first_bad_reference v cols = None.
Proof.
  intros Hseen. induction cols as [|c cols IH]; simpl; [done|].
  intros [Hc Hcols]%andb_prop.
  rewrite (reference_found seen v c Hseen Hc). auto.
Qed.

(** Issued in dependency order, the statements all succeed on a store
    that agrees with them, and leave every table defined as written. *)
Lemma ddl_all_ordered (ds seen : list table_def) (v : db) :
  dependency_ordered seen ds = true →
  NoDup (tname <$> ds) →
  (∀ d, d ∈ seen → has v d) →
  agrees ds v →
  ∃ v', ddl_all ds v = Ok v'
        ∧ (∀ d, d ∈ seen ++ ds → has v' d)
        ∧ (∀ t, t ∉ tname <$> ds → v' !! t = v !! t)
        ∧ (∀ t, rows_of v' t = rows_of v t).
Proof.
  revert seen v. induction ds as [|d ds IH]; intros seen v; simpl.
  - intros _ _ Hseen _. exists v. rewrite app_nil_r. auto.
  - intros [Hd Hrest]%andb_prop [Hfresh Hnodup]%NoDup_cons Hseen Hagree.
    assert (∃ v1, create_table_if_not_exists d v = Ok v1 ∧ has v1 d)
      as (v1 & Hc & Hhas).
    { unfold create_table_if_not_exists.
      destruct (v !! tname d) as [tb|] eqn:Hlook.
      - exists v. split; [done|]. apply has_lookup. exists tb. split; [done|].
        apply (Hagree d tb); [by left | done].
      - rewrite (no_bad_reference seen v _ Hseen Hd). eexists. split; [done|].
        apply has_lookup. eexists. by rewrite lookup_insert_eq. }
    rewrite Hc. simpl.
    destruct (IH (seen ++ [d]) v1 Hrest Hnodup) as (v' & Hv' & Hall & Hout & Hrows).
    + intros d' [Hin | ->%list_elem_of_singleton]%elem_of_app; [|done].
      apply has_lookup. apply Hseen, has_lookup in Hin as (tb & Htb & Hdef).
      exists tb. split; [|done]. by eapply create_keeps_tables.
    + intros d' tb Hin Htb. apply (Hagree d' tb); [by right|].
      assert (tname d ≠ tname d') as Hne.
      { intros Heq. apply Hfresh. rewrite Heq.
        apply list_elem_of_fmap. eauto. }
      revert Hc Htb. unfold create_table_if_not_exists.
      destruct (v !! tname d); [by intros [= <-]|].
      destruct (first_bad_reference v (tcols d)); [done|].
      intros [= <-]. by rewrite lookup_insert_ne.
    + exists v'. split; [done|]. split; [|split].
      * intros d' Hin. apply Hall. rewrite <- app_assoc. exact Hin.
      * intros t Ht. rewrite Hout.
        -- revert Hc. unfold create_table_if_not_exists.
           destruct (v !! tname d); [by intros [= <-]|].
           destruct (first_bad_reference v (tcols d)); [done|].
           intros [= <-]. rewrite lookup_insert_ne; [done|].
           intros <-. apply Ht. by left.
        -- intros Hin. apply Ht. by right.
      * intros t. rewrite Hrows. by eapply create_keeps_rows.
Qed.

(** When every table is there the statements change nothing. *)
Lemma ddl_all_noop (ds : list table_def) (v : db) :
  (∀ d, d ∈ ds → is_Some (v !! tname d)) → ddl_all ds v = Ok v.
Proof.
  induction ds as [|d ds IH]; simpl; [done|]. intros Hall.
  unfold create_table_if_not_exists.
  destruct (Hall d) as [tb ->]; [by left|]. simpl.
  apply IH. intros d' Hin. apply Hall. by right.
Qed.

Lemma create_tables_runs (w : world) (t : txn) (s' : db) :
  conn w = Open t → t ≠ Aborted →
  ddl_all schema_statements (view w) = Ok s' →
  create_tables w
    = (Return (),
       World s' (Open Idle) (sent w)
         (log w ++ [Print "[OK] Tables created successfully!"])).
Proof.
  intros Hconn Ht Hddl.
  destruct (execute_all_runs schema_statements w t s')
    as (t' & Hrun & Ht' & Hview); [done..|].
  unfold create_tables, mbind, M_bind. rewrite Hrun. simpl in *.
  unfold commit, commit_on. simpl. destruct t'; simpl; [by subst|by subst|done].
Qed.

End SchemaFacts.

(* ===================================================================== *)
(** ** Properties of the script *)
(* ===================================================================== *)

Lemma run_code (E : env) (s : db) : (run E s).1 = exit_code (main E (boot s)).1.
Proof. unfold run. by destruct (main E (boot s)). Qed.

Lemma run_world (E : env) (s : db) : (run E s).2 = (main E (boot s)).2.
Proof. unfold run. by destruct (main E (boot s)). Qed.

(** *** Schema *)

(** C3. Schema reconciliation is idempotent. Take a world whose connection
    is usable and in whose store the tables of the script that already
    exist are defined as the script defines them (the empty store, and
    whatever a prior run created of the six tables). The CREATE phase does
    not fail; it leaves the six tables with the definitions of the script
    and every other table as it was; and invoked again on the world it
    produced it does not fail either and leaves the very same store, so it
    creates no further table. *)
Theorem schema_reconciliation_idempotent (w : world) (t : txn) :
  conn w = Open t → t ≠ Aborted →
  agrees schema_statements (view w) →
  ∃ s',
    let done_line := Print "[OK] Tables created successfully!" in
    let w1 := World s' (Open Idle) (sent w) (log w ++ [done_line]) in
    create_tables w = (Return (), w1)
    ∧ (∀ d, d ∈ schema_statements → def_of s' (tname d) = Some (tcols d))
    ∧ (∀ u, u ∉ tname <$> schema_statements → s' !! u = view w !! u)
    ∧ create_tables w1
      = (Return (), World s' (Open Idle) (sent w) (log w1 ++ [done_line])).
Proof.
  intros Hconn Ht Hagree.
  destruct (ddl_all_ordered schema_statements [] (view w))
    as (s' & Hddl & Hall & Hout & _).
  - reflexivity.
  - apply (bool_decide_unpack _). by vm_compute.
  - intros d Hin. by apply elem_of_nil in Hin.
  - exact Hagree.
  - exists s'. simpl. split; [by eapply create_tables_runs|].
    split; [exact Hall|]. split; [exact Hout|].
    apply (create_tables_runs
             (World s' (Open Idle) (sent w)
                (log w ++ [Print "[OK] Tables created successfully!"])) Idle s');
      [done..|].
    apply ddl_all_noop.
    intros d Hin. apply Hall, has_lookup in Hin as (tb & Htb & _).
    unfold view. simpl. eauto.
Qed.

Lemma schema_reconciliation_idempotent_witness :
  agrees schema_statements (view (connected ∅)) ∧
  ∃ s',
    let done_line := Print "[OK] Tables created successfully!" in
    let w1 := World s' (Open Idle) 0 [done_line] in
    create_tables (connected ∅) = (Return (), w1)
    ∧ (∀ d, d ∈ schema_statements → def_of s' (tname d) = Some (tcols d))
    ∧ (∀ u, u ∉ tname <$> schema_statements → s' !! u = (∅ : db) !! u)
    ∧ create_tables w1
      = (Return (), World s' (Open Idle) 0 [done_line; done_line]).
Proof.
  assert (agrees schema_statements (view (connected ∅))) as Hempty.
  { intros d tb _ Hlook. unfold view in Hlook. simpl in Hlook.
    by rewrite lookup_empty in Hlook. }
  split; [exact Hempty|].
  apply (schema_reconciliation_idempotent (connected ∅) Idle);
    [reflexivity | discriminate | exact Hempty].
Defined.

(** C6. Table creation order respects reference integrity. A column of the
    [i]-th CREATE statement that references table [t] finds [t] named by an
    earlier statement of the script; and whenever the statements before the
    [i]-th have run, from any world, table [t] exists in the store the
    [i]-th statement sees. For the second statement this says that
    [applications] is created only where [grants] exists. *)
Theorem creation_order_respects_references (w0 w : world) (i m : nat)
    (d : table_def) (c : column) (t k : string) :
  schema_statements !! i = Some d →
  tcols d !! m = Some c →
  creferences c = Some (t, k) →
  (∃ j d', (j < i)%nat ∧ schema_statements !! j = Some d' ∧ tname d' = t)
  ∧ (execute_all (take i schema_statements) w0 = (Return (), w) →
     is_Some (view w !! t)).
Proof.
  intros Hi Hm Href.
  assert (c ∈ tcols d) as Hc by (by eapply list_elem_of_lookup_2).
  destruct (ordered_referent_before schema_statements [] i d c t k)
    as (d' & Hin & Hname & _); [reflexivity | done..|].
  rewrite app_nil_l in Hin. split.
  - apply list_elem_of_lookup in Hin as [j Hj].
    apply lookup_take_Some in Hj as [Hj Hlt]. eauto.
  - intros Hrun%execute_all_view. rewrite <- Hname.
    by eapply ddl_all_makes_tables.
Qed.

Lemma creation_order_respects_references_witness :
  schema_statements !! 1%nat = Some applications ∧
  tcols applications !! 3%nat
    = Some (references "grants" "id" (col "grant_id" UUID)) ∧
  execute_all (take 1 schema_statements) (connected ∅)
    = (Return (),
       World ∅ (Open (InTxn {[ "grants" := Table (tcols grants) [] ]})) 0 []) ∧
  (∃ j d', (j < 1)%nat ∧ schema_statements !! j = Some d' ∧ tname d' = "grants") ∧
  is_Some
    (view (World ∅ (Open (InTxn {[ "grants" := Table (tcols grants) [] ]})) 0 [])
       !! "grants").
Proof.
  split; [reflexivity|]. split; [reflexivity|]. split; [reflexivity|].
  destruct (creation_order_respects_references (connected ∅)
              (World ∅ (Open (InTxn {[ "grants" := Table (tcols grants) [] ]})) 0 [])
              1 3 applications
              (references "grants" "id" (col "grant_id" UUID)) "grants" "id")
    as [Hstatic Hdynamic]; [reflexivity..|].
  split; [exact Hstatic|]. apply Hdynamic. reflexivity.
Defined.

(** *** Probes *)

Lemma bind_exit {A B} (m : M A) (f : A → M B) (w w' : world) (c : Z) :
  m w = (Exit c, w') → (m ≫= f) w = (Exit c, w').
Proof. intros Hm. unfold mbind, M_bind. by rewrite Hm. Qed.

(** C5. A failed store probe is fatal before any schema change. When
    [psycopg2.connect] or the probe query fails, the process exits with
    status 1, no INSERT was sent, the connection holds no transaction in
    which a statement ran, and the store is the one the run found: no
    table exists afterwards that did not exist before. *)
Theorem store_probe_failure_is_fatal (E : env) (s : db) :
  connect_ok E && version_ok E = false →
  ∃ c l, run E s = (1, World s c 0 l)
         ∧ (c = NotConnected ∨ c = Open Aborted)
         ∧ ∀ t, store (run E s).2 !! t = s !! t.
Proof.
  intros Hdown. unfold run. rewrite main_unfold, probe_store_boot.
  destruct (connect_ok E); [destruct (version_ok E); [done|]|];
    do 2 eexists; (split; [reflexivity|]); auto.
Qed.

Lemma store_probe_failure_is_fatal_witness :
  connect_ok store_down && version_ok store_down = false ∧
  ∃ c l, run store_down narrow_store = (1, World narrow_store c 0 l)
         ∧ (c = NotConnected ∨ c = Open Aborted)
         ∧ ∀ t, store (run store_down narrow_store).2 !! t = narrow_store !! t.
Proof.
  split; [reflexivity|].
  apply (store_probe_failure_is_fatal store_down narrow_store). reflexivity.
Defined.

(** C7. The AI probe tries the modern call shape first and the legacy one
    only when the modern one failed; it succeeds as soon as one of them
    does, and only when both fail does it end the process, with status 1.
    (The probe runs once the store probe has passed.) *)
Theorem ai_probe_falls_back (E : env) (s : db) :
  connect_ok E = true → version_ok E = true →
  let w1 := World s (Open (InTxn s)) 0
              [Print "[OK] Database connection successful!"] in
  let up := ai_ok E Probe Modern || ai_ok E Probe Legacy in
  probe_store E (boot s) = (Return (), w1)
  ∧ (∃ l, probe_ai E w1
            = (if up then Return () else Exit 1,
               World s (Open (InTxn s)) 0 (log w1 ++ l))
          ∧ calls l = if ai_ok E Probe Modern then [(Probe, Modern)]
                      else [(Probe, Modern); (Probe, Legacy)])
  ∧ (up = false → (run E s).1 = 1).
Proof.
  intros Hc Hv w1 up.
  assert (probe_store E (boot s) = (Return (), w1)) as Hstore.
  { rewrite probe_store_boot. by rewrite Hc, Hv. }
  assert (∃ l, probe_ai E w1
                 = (if up then Return () else Exit 1,
                    World s (Open (InTxn s)) 0 (log w1 ++ l))
               ∧ calls l = if ai_ok E Probe Modern then [(Probe, Modern)]
                           else [(Probe, Modern); (Probe, Legacy)])
    as (l & Hai & Hcalls).
  { subst up. unfold probe_ai, try_except, try_bare, completion, mbind, M_bind.
    simpl. destruct (ai_ok E Probe Modern); simpl.
    - by eexists.
    - destruct (ai_ok E Probe Legacy); simpl; by eexists. }
  split; [done|]. split; [by exists l|].
  intros Hdown. rewrite Hdown in Hai.
  unfold run. rewrite main_unfold, Hstore.
  by rewrite (bind_exit _ _ _ _ _ Hai).
Qed.

Lemma ai_probe_falls_back_witness :
  connect_ok ai_down = true ∧ version_ok ai_down = true ∧
  (∃ l, probe_ai ai_down
          (World ∅ (Open (InTxn ∅)) 0 [Print "[OK] Database connection successful!"])
          = (Exit 1,
             World ∅ (Open (InTxn ∅)) 0
               ([Print "[OK] Database connection successful!"] ++ l))
        ∧ calls l = [(Probe, Modern); (Probe, Legacy)])
  ∧ (run ai_down ∅).1 = 1.
Proof.
  split; [reflexivity|]. split; [reflexivity|].
  destruct (ai_probe_falls_back ai_down ∅) as (_ & Hprobe & Hexit);
    [reflexivity..|].
  split; [exact Hprobe | apply Hexit; reflexivity].
Defined.

(** *** Rows *)

Definition same_rows_elsewhere (v v' : db) : Prop :=
  ∀ t, t ≠ "grants" → rows_of v' t = rows_of v t.

Lemma rows_elsewhere_kept (E : env) (s : db) :
  same_rows_elsewhere s (store (run E s).2).
Proof.
  rewrite run_world.
  apply (main_ends same_rows_elsewhere); unfold same_rows_elsewhere.
  - done.
  - intros a b c Hab Hbc t Ht. by rewrite Hbc, Hab.
  - intros d v v' Hc t _. by eapply create_keeps_rows.
  - intros rnd nw g dl v v' n Hi t Ht. apply insert_appends in Hi as [Hi _]. auto.
Qed.

(** C8. The script writes rows into [grants] only. Whatever the store and
    the environment, and however the run ends, the rows of [applications],
    [analysis_history], [users], [predictions] and [subscriptions] after
    the run are the rows before it (none, for a table the run creates). *)
Theorem other_tables_keep_their_rows (E : env) (s : db) :
  Forall (λ t, rows_of (store (run E s).2) t = rows_of s t)
    [ "applications"; "analysis_history"; "users"; "predictions";
      "subscriptions" ].
Proof.
  pose proof (rows_elsewhere_kept E s) as Hkept.
  repeat constructor; by apply Hkept.
Qed.

Definition adds_government_rows (v v' : db) : Prop :=
  ∃ new, rows_of v' "grants" = rows_of v "grants" ++ new
         ∧ Forall from_government new.

(** C10. Every row the seeding loop inserts has source "Government".
    Whatever the store and the environment, the [grants] rows after a run
    are the rows before it followed by rows whose [source] column holds the
    text "Government". *)
Theorem seeded_rows_come_from_government (E : env) (s : db) :
  ∃ new, rows_of (store (run E s).2) "grants" = rows_of s "grants" ++ new
         ∧ Forall from_government new.
Proof.
  rewrite run_world.
  apply (main_ends adds_government_rows); unfold adds_government_rows.
  - intros v. exists []. by rewrite app_nil_r.
  - intros a b c (n1 & Hab & H1) (n2 & Hbc & H2). exists (n1 ++ n2).
    split; [by rewrite Hbc, Hab, app_assoc | by apply Forall_app].
  - intros d v v' Hc. exists []. rewrite app_nil_r.
    split; [by eapply create_keeps_rows | constructor].
  - intros rnd nw g dl v v' n Hi. by eapply insert_grant_row.
Qed.

(** On the empty store the eight catalog records are inserted, each with
    source "Government". *)
Example first_run_sources :
  map (λ r, row_get r "source") (rows_of (store (run (all_up 0) ∅).2) "grants")
    = replicate 8 (VText "Government").
Proof. by vm_compute. Qed.

(** *** Connection *)

(** Where the connection ends up, for every run. A run that reaches the
    last line of the script exits with status 0 and has closed the
    connection. Every other run exits with status 1 and has called neither
    [cursor.close()] nor [conn.close()]: the connection is as the failing
    step left it, open, unless [psycopg2.connect] itself failed and there
    never was one. *)
Theorem connection_closed_only_at_the_end (E : env) (s : db) :
  ((run E s).1 = 0 ∧ conn (run E s).2 = Closed)
  ∨ ((run E s).1 = 1 ∧ connect_ok E = true ∧ ∃ t, conn (run E s).2 = Open t)
  ∨ ((run E s).1 = 1 ∧ connect_ok E = false ∧ conn (run E s).2 = NotConnected).
Proof.
  rewrite run_code, run_world.
  destruct (main_ends (λ _ _, True) (λ _, I) (λ _ _ _ _ _, I) (λ _ _ _ _, I)
              (λ _ _ _ _ _ _ _ _, I) s E) as [_ Hend].
  destruct ((main E (boot s)).1) as [[]|e|c]; simpl.
  - by left.
  - right; left. by destruct Hend.
  - destruct Hend as [-> Hend]. destruct (connect_ok E); [right; left|right; right]; done.
Qed.


(** *** Seeding *)

(** The store after the CREATE phase on the empty store. *)
Definition provisioned : db := store (create_tables (connected ∅)).2.

(** C1, on the code. [grants] has no key but the generated [id], so the
    conflict clause of the INSERT never sees a title that is already
    there. Seeding the provisioned store twice, with fresh ids in the
    second pass, leaves sixteen rows: every title of the catalog twice.
    The same holds for two runs of the whole script from the empty
    store. *)
Theorem second_seeding_duplicates_the_catalog :
  let catalog := map (λ g, VText (title g)) sample_grants in
  let once := store (seed_grants (all_up 0) (connected provisioned)).2 in
  let twice := store (seed_grants (all_up 100) (connected once)).2 in
  let run1 := store (run (all_up 0) ∅).2 in
  let run2 := store (run (all_up 100) run1).2 in
  length sample_grants = 8%nat
  ∧ titles (rows_of once "grants") = catalog
  ∧ titles (rows_of twice "grants") = catalog ++ catalog
  ∧ length (rows_of twice "grants") = 16%nat
  ∧ titles (rows_of run1 "grants") = catalog
  ∧ titles (rows_of run2 "grants") = catalog ++ catalog.
Proof. by vm_compute. Qed.

(** C2, on the code. The first run on the empty store reports 8 new
    records; the second run, on the store the first one left, inserts the
    catalog again and reports 8 new records, not 0, and counts 16 grants. *)
Theorem second_run_reports_eight_new :
  let first := run (all_up 0) ∅ in
  let second := run (all_up 100) (store first.2) in
  (seed_grants (all_up 0) (connected provisioned)).1 = Return 8%nat
  ∧ log first.2 =
      [ Print "[OK] Database connection successful!";
        Call Probe Modern;
        Print "[OK] OpenAI API connection successful! (v1.0+)";
        Print "[OK] Tables created successfully!";
        Print "[OK] 8 new Grant records added!";
        Print "   - Total Grants: 8";
        Print "   - Total Users: 0";
        Print "   - Total Predictions: 0";
        WriteFile "connection_info.txt" 8;
        Print "[OK] connection_info.txt file created";
        Call SmokeTest Modern;
        Print "[OK] AI analysis test successful!";
        Print "Success probability: 70%";
        Print "SETUP COMPLETE!" ]
  ∧ log second.2 =
      [ Print "[OK] Database connection successful!";
        Call Probe Modern;
        Print "[OK] OpenAI API connection successful! (v1.0+)";
        Print "[OK] Tables created successfully!";
        Print "[OK] 8 new Grant records added!";
        Print "   - Total Grants: 16";
        Print "   - Total Users: 0";
        Print "   - Total Predictions: 0";
        WriteFile "connection_info.txt" 16;
        Print "[OK] connection_info.txt file created";
        Call SmokeTest Modern;
        Print "[OK] AI analysis test successful!";
        Print "Success probability: 70%";
        Print "SETUP COMPLETE!" ].
Proof. by vm_compute. Qed.

(** C4, on the code. The store holds a [grants] table whose titles are
    limited to 40 characters, so the second record of the catalog is
    rejected. The rejection leaves the transaction of the loop aborted: the
    six records after it are refused as well, and the [commit] after the
    loop discards the first record, which had been inserted. The run still
    reaches its end and exits with status 0, having reported one new
    record, with no grant in the store. *)
Theorem rejected_record_loses_the_others :
  let r := run (all_up 0) narrow_store in
  (λ g, String.length (title g)) <$> sample_grants !! 1%nat = Some 49%nat
  ∧ r.1 = 0
  ∧ conn r.2 = Closed
  ∧ rows_of (store r.2) "grants" = []
  ∧ log r.2 =
      [ Print "[OK] Database connection successful!";
        Call Probe Modern;
        Print "[OK] OpenAI API connection successful! (v1.0+)";
        Print "[OK] Tables created successfully!";
        PrintExn
          "[WARNING] Failed to insert grant: Small Business Innovation Research (SBIR) Phase I: "
          (DatabaseError (StringDataRightTruncation "title"));
        PrintExn
          "[WARNING] Failed to insert grant: NIH Research Project Grant (R01): "
          (DatabaseError InFailedSqlTransaction);
        PrintExn
          "[WARNING] Failed to insert grant: Education Innovation and Research Grant: "
          (DatabaseError InFailedSqlTransaction);
        PrintExn
          "[WARNING] Failed to insert grant: Community Development Block Grant: "
          (DatabaseError InFailedSqlTransaction);
        PrintExn
          "[WARNING] Failed to insert grant: Arts and Culture Grant Program: "
          (DatabaseError InFailedSqlTransaction);
        PrintExn
          "[WARNING] Failed to insert grant: Clean Energy Innovation Fund: "
          (DatabaseError InFailedSqlTransaction);
        PrintExn
          "[WARNING] Failed to insert grant: Rural Development Grant: "
          (DatabaseError InFailedSqlTransaction);
        Print "[OK] 1 new Grant records added!";
        Print "   - Total Grants: 0";
        Print "   - Total Users: 0";
        Print "   - Total Predictions: 0";
        WriteFile "connection_info.txt" 0;
        Print "[OK] connection_info.txt file created";
        Call SmokeTest Modern;
        Print "[OK] AI analysis test successful!";
        Print "Success probability: 70%";
        Print "SETUP COMPLETE!" ].
Proof. by vm_compute. Qed.

(* ===================================================================== *)
(** ** The seeding loop in general *)
(* ===================================================================== *)

(** The INSERT of the [i]-th record, when it is the [n]-th INSERT sent. *)
Definition insert_statement (E : env) (n i : nat) (g : grant) : statement nat :=
  insert_on_conflict_do_nothing (uuid E n) (now E) "grants"
    (insert_parameters g (today E + randint 30 180 (entropy E i))).

(** The line printed by the [except] branch of the loop. *)
Definition warning (g : grant) (e : exn) : event :=
  PrintExn ("[WARNING] Failed to insert grant: " +:+ title g +:+ ": ") e.

Definition warning_of (gs : list grant) (e : event) : Prop :=
  ∃ g x, g ∈ gs ∧ e = warning g x.

(** A row as the loop builds it from a record of the catalog. *)
Definition seeded (E : env) (r : row) : Prop :=
  (∃ g, g ∈ sample_grants ∧ row_get r "title" = VText (title g))
  ∧ (∃ d, row_get r "deadline" = VDate d ∧ (today E + 30 ≤ d ≤ today E + 180)%Z)
  ∧ from_government r.

(** [v'] is [v] with the rows [new] appended to [grants] and nothing else
    changed. *)
Definition grew (E : env) (v v' : db) (new : list row) : Prop :=
  rows_of v' "grants" = rows_of v "grants" ++ new
  ∧ Forall (seeded E) new
  ∧ (∀ u, u ≠ "grants" → v' !! u = v !! u)
  ∧ def_of v' "grants" = def_of v "grants".

Section SeedFacts.

Lemma randint_range (lo hi raw : Z) :
  (lo ≤ hi)%Z → (lo ≤ randint lo hi raw ≤ hi)%Z.
Proof.
  intros Hle. unfold randint.
  pose proof (Z.mod_pos_bound raw (hi - lo + 1)). lia.
Qed.

Lemma coerce_date (c : string) (t : sqltype) (d : Z) (v : value) :
  coerce c t (VDate d) = Ok v → v = VDate d.
Proof. destruct t; simpl; try done. by intros [= <-]. Qed.

(** The statement stores nothing and counts 0, or stores one row and
    counts 1. *)
Lemma insert_outcome rnd nw (t : string) given (v v' : db) (n : nat) :
  insert_on_conflict_do_nothing rnd nw t given v = Ok (v', n) →
  (n = 0%nat ∧ v' = v)
  ∨ (n = 1%nat ∧
     ∃ tb r, v !! t = Some tb
             ∧ rmap (column_value rnd nw given) (imap pair (tdef tb)) = Ok r
             ∧ first_unknown_column (tdef tb) given = None
             ∧ conflicts (tdef tb) (trows tb) r = false
             ∧ v' = <[t := Table (tdef tb) (trows tb ++ [r])]> v).
Proof.
  unfold insert_on_conflict_do_nothing.
  destruct (v !! t) as [tb|] eqn:Ht; [|done].
  destruct (first_unknown_column (tdef tb) given) eqn:Hunk; [done|].
  destruct (rmap _ _) as [r|] eqn:Hr; [|done]. simpl.
  destruct (first_null_violation (tdef tb) r); [done|].
  destruct (conflicts (tdef tb) (trows tb) r) eqn:Hconf.
  { intros [= <- <-]. by left. }
  destruct (first_dangling_reference v (tdef tb) r); [done|].
  intros [= <- <-]. right. split; [done|]. by exists tb, r.
Qed.

Lemma grew_nothing (E : env) (v : db) : grew E v v [].
Proof. unfold grew. by rewrite app_nil_r. Qed.

Lemma grew_more (E : env) (a b c : db) (n1 n2 : list row) :
  grew E a b n1 → grew E b c n2 → grew E a c (n1 ++ n2).
Proof.
  intros (Hr1 & Hs1 & Ho1 & Hd1) (Hr2 & Hs2 & Ho2 & Hd2). repeat split.
  - by rewrite Hr2, Hr1, app_assoc.
  - by apply Forall_app.
  - intros u Hu. by rewrite Ho2, Ho1.
  - by rewrite Hd2, Hd1.
Qed.

(** What one INSERT of the loop does to the view it runs on. *)
Lemma insert_statement_grew (E : env) (n i : nat) (g : grant) (v v' : db)
    (m : nat) :
  g ∈ sample_grants →
  insert_statement E n i g v = Ok (v', m) →
  (m = 0%nat ∧ v' = v)
  ∨ (m = 1%nat ∧ ∃ r, grew E v v' [r] ∧ row_get r "title" = VText (title g)).
Proof.
  intros Hg [Hno | (-> & tb & r & Ht & Hr & Hunk & _ & ->)]%insert_outcome;
    [by left|].
  right. split; [done|]. exists r.
  assert (∀ c x, assoc c (insert_parameters g
                            (today E + randint 30 180 (entropy E i))) = Some x →
                 ∃ ty, coerce c ty x = Ok (row_get r c)) as Hheld.
  { intros c x Hc. eapply row_holds_given; [done..|].
    rewrite (imap_pair_snd id). by eapply unknown_column_none. }
  assert (row_get r "title" = VText (title g)) as Htitle.
  { destruct (Hheld "title" (VText (title g))) as [ty Hco]; [done|].
    by apply coerce_text in Hco. }
  split; [|exact Htitle]. repeat split.
  - rewrite rows_of_insert_eq. unfold rows_of. by rewrite Ht.
  - constructor; [|constructor]. repeat split.
    + by exists g.
    + eexists. split.
      * destruct (Hheld "deadline"
                    (VDate (today E + randint 30 180 (entropy E i))))
          as [ty Hco]; [done|].
        by apply coerce_date in Hco.
      * pose proof (randint_range 30 180 (entropy E i)). lia.
    + destruct (Hheld "source" (VText "Government")) as [ty Hco]; [done|].
      unfold from_government. by apply coerce_text in Hco.
  - intros u Hu. by rewrite lookup_insert_ne.
  - unfold def_of. rewrite lookup_insert_eq, Ht. done.
Qed.

(** One turn of the loop, whatever the state of the connection. *)
Lemma seed_one_run (E : env) (i : nat) (g : grant) (k : nat) (w : world) :
  seed_one E i g k w =
    match conn w with
    | Open Aborted =>
        (Return k,
         World (store w) (Open Aborted) (S (sent w))
           (log w ++ [warning g (DatabaseError InFailedSqlTransaction)]))
    | Open _ =>
        match insert_statement E (sent w) i g (view w) with
        | Ok (v', n) =>
            (Return (if (0 <? n)%nat then S k else k),
             World (store w) (Open (InTxn v')) (S (sent w)) (log w))
        | Err e =>
            (Return k,
             World (store w) (Open Aborted) (S (sent w))
               (log w ++ [warning g (DatabaseError e)]))
        end
    | c =>
        (Return k,
         World (store w) c (S (sent w)) (log w ++ [warning g InterfaceError]))
    end.
Proof.
  destruct w as [st c n l].
  unfold seed_one, try_except, insert_grant, mbind, M_bind, next_insert,
    execute, execute_on, insert_statement, view. simpl.
  destruct c as [|[|v|]|]; simpl; try reflexivity.
  - by destruct (insert_on_conflict_do_nothing _ _ _ _ st) as [[v' m]|e].
  - by destruct (insert_on_conflict_do_nothing _ _ _ _ v) as [[v' m]|e].
Qed.

Lemma seed_loop_step (E : env) (i : nat) (g : grant) (gs : list grant)
    (k : nat) (w : world) :
  seed_loop E i (g :: gs) k w =
    match seed_one E i g k w with
    | (Return n, w') => seed_loop E (S i) gs n w'
    | (Raise e, w') => (Raise e, w')
    | (Exit c, w') => (Exit c, w')
    end.
Proof. reflexivity. Qed.

(** Once the transaction is aborted every remaining record is refused and
    logged, and the count stays where it was. *)
Lemma seed_loop_aborted (E : env) (gs : list grant) (i k : nat) (w : world) :
  conn w = Open Aborted →
  ∃ l, seed_loop E i gs k w
         = (Return k,
            World (store w) (Open Aborted) (sent w + length gs) (log w ++ l))
       ∧ length l = length gs
       ∧ Forall (warning_of gs) l.
Proof.
  revert i w. induction gs as [|g gs IH]; intros i [st c n l0] Hc;
    simpl in Hc; subst c.
  - exists []. simpl. by rewrite Nat.add_0_r, app_nil_r.
  - rewrite seed_loop_step, seed_one_run. simpl.
    edestruct (IH (S i)) as (l & -> & Hlen & Hall); [reflexivity|]. simpl.
    exists (warning g (DatabaseError InFailedSqlTransaction) :: l).
    split; [|split].
    + f_equal. f_equal; [lia | by rewrite <- app_assoc].
    + simpl. by rewrite Hlen.
    + constructor.
      * exists g, (DatabaseError InFailedSqlTransaction). split; [by left|done].
      * eapply Forall_impl; [exact Hall|].
        intros e (g' & x & Hin & ->). exists g', x. split; [by right|done].
Qed.

Definition txn_view (committed : db) (t : txn) : db :=
  match t with
  | InTxn d => d
  | _ => committed
  end.

(** From a usable connection the loop either gets every INSERT accepted,
    logs nothing and grows the view by as many rows as it counted, or gets
    one rejected and leaves the transaction aborted. *)
Lemma seed_loop_usable (E : env) (gs : list grant) (i k : nat) (w : world)
    (t : txn) :
  (∀ g, g ∈ gs → g ∈ sample_grants) →
  conn w = Open t → t ≠ Aborted →
  ∃ k' t' l,
    seed_loop E i gs k w
      = (Return k',
         World (store w) (Open t') (sent w + length gs) (log w ++ l))
    ∧ Forall (warning_of gs) l
    ∧ (k ≤ k' ≤ k + length gs)%nat
    ∧ ((l = [] ∧ t' ≠ Aborted
        ∧ ∃ new, grew E (view w) (txn_view (store w) t') new
                 ∧ length new = (k' - k)%nat
                 ∧ titles new `sublist_of` map (λ g, VText (title g)) gs)
       ∨ (l ≠ [] ∧ t' = Aborted)).
Proof.
  revert i k w t. induction gs as [|g gs IH]; intros i k [st c n l0] t Hsub Hc Ht;
    simpl in Hc; subst c.
  - exists k, t, []. simpl. rewrite Nat.add_0_r, app_nil_r.
    split; [done|]. split; [constructor|]. split; [lia|]. left.
    split; [done|]. split; [done|]. exists [].
    split; [|split; [simpl; lia | constructor]].
    unfold view. simpl. destruct t; apply grew_nothing.
  - rewrite seed_loop_step, seed_one_run.
    assert (g ∈ sample_grants) as Hg by (apply Hsub; by left).
    assert (∀ g', g' ∈ gs → g' ∈ sample_grants) as Hsub'
      by (intros g' Hin; apply Hsub; by right).
    assert (∀ l, Forall (warning_of gs) l → Forall (warning_of (g :: gs)) l)
      as Hweak.
    { intros l Hall. eapply Forall_impl; [exact Hall|].
      intros e (g' & x & Hin & ->). exists g', x. split; [by right|done]. }
    set (w0 := World st (Open t) n l0).
    assert (match conn w0 with
            | Open Aborted =>
                (Return k,
                 World (store w0) (Open Aborted) (S (sent w0))
                   (log w0 ++ [warning g (DatabaseError InFailedSqlTransaction)]))
            | Open _ =>
                match insert_statement E (sent w0) i g (view w0) with
                | Ok (v', m) =>
                    (Return (if (0 <? m)%nat then S k else k),
                     World (store w0) (Open (InTxn v')) (S (sent w0)) (log w0))
                | Err e =>
                    (Return k,
                     World (store w0) (Open Aborted) (S (sent w0))
                       (log w0 ++ [warning g (DatabaseError e)]))
                end
            | c =>
                (Return k,
                 World (store w0) c (S (sent w0))
                   (log w0 ++ [warning g InterfaceError]))
            end
            = match insert_statement E n i g (view w0) with
              | Ok (v', m) =>
                  (Return (if (0 <? m)%nat then S k else k),
                   World st (Open (InTxn v')) (S n) l0)
              | Err e =>
                  (Return k,
                   World st (Open Aborted) (S n)
                     (l0 ++ [warning g (DatabaseError e)]))
              end) as -> by (subst w0; simpl; by destruct t).
    destruct (insert_statement E n i g (view w0)) as [[v' m]|e] eqn:Hins.
    + destruct (IH (S i) (if (0 <? m)%nat then S k else k)
                  (World st (Open (InTxn v')) (S n) l0) (InTxn v'))
        as (k' & t' & l & -> & Hall & Hk & Hcase); [done..|].
      simpl in *. exists k', t', l.
      split; [f_equal; f_equal; lia|]. split; [by apply Hweak|].
      destruct (insert_statement_grew E n i g _ _ _ Hg Hins)
        as [[-> ->] | (-> & r & Hgrew & Htitle)]; simpl in *.
      * split; [lia|].
        destruct Hcase as [(-> & Ht' & new & Hnew & Hlen & Hord) | ?];
          [left | by right].
        split; [done|]. split; [done|]. exists new.
        split; [done|]. split; [done|]. by apply sublist_cons.
      * split; [lia|].
        destruct Hcase as [(-> & Ht' & new & Hnew & Hlen & Hord) | ?];
          [left | by right].
        split; [done|]. split; [done|]. exists ([r] ++ new).
        split; [by eapply grew_more|]. split; [simpl; lia|].
        simpl. rewrite Htitle. by apply sublist_skip.
    + destruct (seed_loop_aborted E gs (S i) k
                  (World st (Open Aborted) (S n)
                     (l0 ++ [warning g (DatabaseError e)])))
        as (l & -> & Hlen & Hall); [done|].
      simpl. exists k, Aborted, (warning g (DatabaseError e) :: l).
      split; [f_equal; f_equal; [lia | by rewrite <- app_assoc]|].
      split; [|split; [lia | by right]].
      constructor; [|by apply Hweak]. exists g, (DatabaseError e).
      split; [by left|done].
Qed.

End SeedFacts.

(* ===================================================================== *)
(** ** The phases, one by one *)
(* ===================================================================== *)

Definition seed_line (n : nat) : event := Print (seed_report n).

(** What an attempt of the smoke test yields: the content of the
    response, or nothing when the call or the reading of its response
    raises. *)
Definition attempt (E : env) (c : call_shape) : option (option string) :=
  if ai_ok E SmokeTest c then answer E c else None.

(** The exception of a failed attempt. *)
Definition attempt_error (E : env) (c : call_shape) : exn :=
  if ai_ok E SmokeTest c then ResponseError else ApiError.

(** The result the smoke test goes on with: that of the modern attempt,
    else that of the legacy attempt. *)
Definition smoke_result (E : env) : option (option string) :=
  match attempt E Modern with
  | Some r => Some r
  | None => attempt E Legacy
  end.

(** The smoke test prints its result without a warning. *)
Definition smoke_passes (E : env) : bool :=
  match smoke_result E with
  | Some (Some text) => console_ok E (shown text)
  | _ => false
  end.

Definition smoke_warning (e : exn) : event :=
  PrintExn "[WARNING] AI analysis test failed: " e.

Definition result_log (E : env) (r : option string) : list event :=
  Print "[OK] AI analysis test successful!"
  :: match r with
     | None => [ smoke_warning TypeError ]
     | Some text =>
         if console_ok E (shown text) then [ Print (shown text) ]
         else [ smoke_warning UnicodeEncodeError ]
     end.

(** What the smoke test adds to the log. *)
Definition smoke_log (E : env) : list event :=
  match attempt E Modern with
  | Some r => Call SmokeTest Modern :: result_log E r
  | None =>
      Call SmokeTest Modern :: Call SmokeTest Legacy
      :: match attempt E Legacy with
         | Some r => result_log E r
         | None => [ smoke_warning (attempt_error E Legacy) ]
         end
  end.

(** What a report that reaches its end adds to the log, for the row counts
    it read. *)
Definition report_log (E : env) (grant_count user_count prediction_count : nat)
  : list event :=
  [ Print (status_line "Total Grants" grant_count);
    Print (status_line "Total Users" user_count);
    Print (status_line "Total Predictions" prediction_count);
    WriteFile "connection_info.txt" grant_count;
    Print "[OK] connection_info.txt file created" ]
  ++ smoke_log E ++ [ Print "SETUP COMPLETE!" ].

Section PhaseFacts.

Lemma bind_returns {A B} (m : M A) (f : A → M B) (w w' : world) (b : B) :
  (m ≫= f) w = (Return b, w') →
  ∃ a w1, m w = (Return a, w1) ∧ f a w1 = (Return b, w').
Proof.
  unfold mbind, M_bind. destruct (m w) as [[a|e|c] w1]; [eauto|done..].
Qed.

Lemma smoke_test_run (E : env) (w : world) :
  smoke_test E w
    = (Return (), World (store w) (conn w) (sent w) (log w ++ smoke_log E)).
Proof.
  destruct w as [st c n l].
  unfold smoke_test, smoke_log, result_log, smoke_warning, attempt,
    attempt_error, try_except, try_bare, completion, read_answer,
    print_result, raise, emit, print, mbind, M_bind, mret, M_ret.
  simpl.
  destruct (ai_ok E SmokeTest Modern); simpl;
    [destruct (answer E Modern) as [[text|]|]; simpl|];
    try (destruct (console_ok E (shown text)); simpl);
    try (rewrite <- !app_assoc; reflexivity);
    (destruct (ai_ok E SmokeTest Legacy); simpl;
     [destruct (answer E Legacy) as [[text'|]|]; simpl|];
     try (destruct (console_ok E (shown text')); simpl);
     rewrite <- !app_assoc; reflexivity).
Qed.

Lemma probe_ai_run (E : env) (w : world) :
  ∃ l, probe_ai E w
         = (if ai_ok E Probe Modern || ai_ok E Probe Legacy
            then Return () else Exit 1,
            World (store w) (conn w) (sent w) (log w ++ l)).
Proof.
  destruct w as [st c n l0].
  unfold probe_ai, try_except, try_bare, completion, emit, print, exit,
    mbind, M_bind. simpl.
  destruct (ai_ok E Probe Modern); simpl.
  - eexists. rewrite <- !app_assoc. reflexivity.
  - destruct (ai_ok E Probe Legacy); simpl; eexists; rewrite <- !app_assoc;
      reflexivity.
Qed.

(** [execute] never changes the committed store, the counter or the log. *)
Lemma execute_keeps {A} (q : statement A) (w : world) :
  store (execute q w).2 = store w
  ∧ sent (execute q w).2 = sent w
  ∧ log (execute q w).2 = log w.
Proof.
  unfold execute. by destruct (execute_on q (store w) (conn w)) as [[e|a] c].
Qed.

(** On a usable connection a rejected CREATE raises and aborts. *)
Lemma execute_all_fails (ds : list table_def) (w : world) (t : txn)
    (e : sql_error) :
  conn w = Open t → t ≠ Aborted → ddl_all ds (view w) = Err e →
  execute_all ds w
    = (Raise (DatabaseError e),
       World (store w) (Open Aborted) (sent w) (log w)).
Proof.
  revert w t. induction ds as [|d ds IH]; intros [st c n l] t; simpl; [done|].
  intros -> Ht Hd.
  destruct t as [|v|]; [..|done]; unfold view in Hd; simpl in Hd;
    (destruct (create_table_if_not_exists d _) as [v1|e1] eqn:Hc; simpl in Hd;
     unfold mbind, M_bind, execute, execute_on, create_statement; simpl;
     rewrite Hc; simpl;
     [ apply (IH (World st (Open (InTxn v1)) n l) (InTxn v1)); done
     | by injection Hd as -> ]).
Qed.

(** The CREATE phase on a usable connection: all six statements and the
    commit, or the first rejection and nothing committed. *)
Lemma create_tables_run (w : world) (t : txn) :
  conn w = Open t → t ≠ Aborted →
  create_tables w =
    match ddl_all schema_statements (view w) with
    | Ok v' =>
        (Return (),
         World v' (Open Idle) (sent w)
           (log w ++ [Print "[OK] Tables created successfully!"]))
    | Err e =>
        (Raise (DatabaseError e),
         World (store w) (Open Aborted) (sent w) (log w))
    end.
Proof.
  intros Hc Ht. destruct (ddl_all schema_statements (view w)) as [v'|e] eqn:Hd.
  - by eapply create_tables_runs.
  - unfold create_tables, mbind, M_bind.
    by rewrite (execute_all_fails _ _ _ _ Hc Ht Hd).
Qed.

Lemma create_tables_unusable (w : world) :
  (∀ t, conn w = Open t → t = Aborted) →
  ∃ e, create_tables w = (Raise e, w).
Proof.
  destruct w as [st c n l]. simpl. intros Hc.
  destruct c as [|t|]; [by eexists| |by eexists].
  rewrite (Hc t eq_refl). by eexists.
Qed.

(** The seeding phase on a usable connection. *)
Lemma seed_grants_run (E : env) (w : world) (t : txn) :
  conn w = Open t → t ≠ Aborted →
  ∃ n l s',
    seed_grants E w
      = (Return n,
         World s' (Open Idle) (sent w + 8) (log w ++ l ++ [seed_line n]))
    ∧ (n ≤ 8)%nat
    ∧ Forall (warning_of sample_grants) l
    ∧ ((l = [] ∧ ∃ new, grew E (view w) s' new ∧ length new = n
                        ∧ titles new
                            `sublist_of` map (λ g, VText (title g)) sample_grants)
       ∨ (l ≠ [] ∧ s' = store w)).
Proof.
  intros Hc Ht.
  destruct (seed_loop_usable E sample_grants 0 0 w t)
    as (n & t' & l & Hloop & Hall & Hn & Hcase); [done..|].
  exists n, l, (match t' with InTxn d => d | _ => store w end).
  unfold seed_grants, mbind, M_bind. rewrite Hloop.
  change (length sample_grants) with 8%nat in *. split; [|split; [lia|split]].
  - unfold commit, commit_on, print, emit, seed_line. simpl.
    destruct t'; simpl; by rewrite <- app_assoc.
  - done.
  - destruct Hcase as [(-> & Ht' & new & Hnew & Hlen & Hord) | [Hl ->]].
    + left. split; [done|]. exists new. split; [|split; [lia|done]].
      unfold txn_view in Hnew. by destruct t'.
    + by right.
Qed.

Lemma select_count_run (u : string) (w : world) (t : txn) :
  conn w = Open t → t ≠ Aborted →
  execute (select_count u) w =
    match view w !! u with
    | Some tb =>
        (Return (length (trows tb)),
         World (store w) (Open (InTxn (view w))) (sent w) (log w))
    | None =>
        (Raise (DatabaseError (UndefinedTable u)),
         World (store w) (Open Aborted) (sent w) (log w))
    end.
Proof.
  destruct w as [st c n l]. simpl. intros -> Ht.
  unfold execute, execute_on, select_count, view. simpl.
  destruct t as [|v|]; [..|done]; simpl.
  - by destruct (st !! u).
  - by destruct (v !! u).
Qed.

Lemma select_count_in_txn (u : string) (st v : db) (n : nat) (l : list event) :
  execute (select_count u) (World st (Open (InTxn v)) n l) =
    match v !! u with
    | Some tb =>
        (Return (length (trows tb)), World st (Open (InTxn v)) n l)
    | None =>
        (Raise (DatabaseError (UndefinedTable u)),
         World st (Open Aborted) n l)
    end.
Proof.
  unfold execute, execute_on, select_count. simpl. by destruct (v !! u).
Qed.

Lemma bind_unfold {A B} (m : M A) (f : A → M B) (w : world) :
  (m ≫= f) w =
    match m w with
    | (Return a, w1) => f a w1
    | (Raise e, w1) => (Raise e, w1)
    | (Exit c, w1) => (Exit c, w1)
    end.
Proof. reflexivity. Qed.

Lemma select_listing_ok (v d : db) (u : unit) :
  select_listing v = Ok (d, u) → d = v.
Proof.
  unfold select_listing. destruct (v !! "grants"); [|done].
  destruct (first_unknown_column _ _); [done|]. by intros [= <-].
Qed.

Lemma list_grants_in_txn (E : env) (st v : db) (n : nat) (l : list event) :
  list_grants E (World st (Open (InTxn v)) n l) =
    match select_listing v with
    | Ok _ =>
        if format_ok E st then (Return (), World st (Open (InTxn v)) n l)
        else (Raise FormatError, World st (Open (InTxn v)) n l)
    | Err e => (Raise (DatabaseError e), World st (Open Aborted) n l)
    end.
Proof.
  unfold list_grants. rewrite bind_unfold. unfold execute, execute_on.
  cbn [store conn sent log].
  destruct (select_listing v) as [[d []]|e] eqn:Hsel; [|done].
  apply select_listing_ok in Hsel as ->. reflexivity.
Qed.

(** The report reaches its end exactly when the three counted tables
    exist, the file can be written, the listing is accepted and its rows
    can be formatted; it then closes the connection and leaves the store
    alone. *)
Lemma report_returns (E : env) (w w' : world) (t : txn) :
  conn w = Open t → t ≠ Aborted →
  report E w = (Return (), w') ↔
  ∃ tg tu tp,
    view w !! "grants" = Some tg
    ∧ view w !! "users" = Some tu
    ∧ view w !! "predictions" = Some tp
    ∧ file_ok E = true
    ∧ first_unknown_column (tdef tg) (map (λ c, (c, ())) listed_columns) = None
    ∧ format_ok E (store w) = true
    ∧ w' = World (store w) Closed (sent w)
             (log w ++ report_log E (length (trows tg)) (length (trows tu))
                         (length (trows tp))).
Proof.
  intros Hc Ht. unfold report.
  rewrite bind_unfold, (select_count_run "grants" w t Hc Ht).
  remember (view w) as v eqn:Hv.
  destruct (v !! "grants") as [tg|] eqn:Hg;
    [|split; [done | by intros (? & ? & ? & [=] & _)]].
  rewrite bind_unfold, select_count_in_txn.
  destruct (v !! "users") as [tu|] eqn:Hu;
    [|split; [done | by intros (? & ? & ? & _ & [=] & _)]].
  rewrite bind_unfold, select_count_in_txn.
  destruct (v !! "predictions") as [tp|] eqn:Hp;
    [|split; [done | by intros (? & ? & ? & _ & _ & [=] & _)]].
  unfold print, write_info_file.
  do 3 (rewrite bind_unfold; unfold emit at 1; cbn [store conn sent log]).
  rewrite bind_unfold.
  destruct (file_ok E) eqn:Hfile;
    [|split; [done | by intros (? & ? & ? & _ & _ & _ & [=] & _)]].
  unfold emit at 1; cbn [store conn sent log].
  rewrite bind_unfold; unfold emit at 1; cbn [store conn sent log].
  rewrite bind_unfold, smoke_test_run. cbn [store conn sent log].
  rewrite bind_unfold, list_grants_in_txn.
  unfold select_listing. rewrite Hg.
  destruct (first_unknown_column (tdef tg) (map (λ c, (c, ())) listed_columns))
    as [c|] eqn:Hcols.
  { split; [done|]. intros (tg' & ? & ? & [= <-] & _ & _ & _ & Hno & _).
    congruence. }
  destruct (format_ok E (store w)) eqn:Hfmt.
  - rewrite bind_unfold. unfold emit at 1, close. cbn [store conn sent log].
    split.
    + intros [= <-]. exists tg, tu, tp. repeat split; try done.
      unfold report_log. f_equal. rewrite <- !app_assoc. reflexivity.
    + intros (tg' & tu' & tp' & [= <-] & [= <-] & [= <-] & _ & _ & _ & ->).
      unfold report_log. do 2 f_equal. rewrite <- !app_assoc. reflexivity.
  - split; [done | by intros (? & ? & ? & _ & _ & _ & _ & _ & [=] & _)].
Qed.

End PhaseFacts.

(* ===================================================================== *)
(** ** Further properties of the phases *)
(* ===================================================================== *)

(** X1. The seeding phase cannot fail on an open connection. Whatever the
    server does with the eight INSERTs, and even when the transaction was
    aborted before the loop began, the phase returns: it has sent exactly
    eight INSERTs, counted at most eight new records, and its [commit]
    leaves the connection with no transaction running. *)
Theorem seeding_always_returns (E : env) (w : world) (t : txn) :
  conn w = Open t →
  ∃ n w', seed_grants E w = (Return n, w')
          ∧ (n ≤ 8)%nat
          ∧ sent w' = (sent w + 8)%nat
          ∧ conn w' = Open Idle.
Proof.
  intros Hc.
  assert (t = Aborted ∨ t ≠ Aborted) as [->|Ht] by (destruct t; auto).
  - destruct (seed_loop_aborted E sample_grants 0 0 w Hc) as (l & Hloop & _).
    unfold seed_grants, mbind, M_bind. rewrite Hloop. simpl.
    do 2 eexists. split; [reflexivity|]. simpl. repeat split; lia.
  - destruct (seed_grants_run E w t Hc Ht) as (n & l & s' & -> & Hn & _).
    do 2 eexists. split; [reflexivity|]. by repeat split.
Qed.

Lemma seeding_always_returns_witness :
  conn (World narrow_store (Open Aborted) 0 []) = Open Aborted ∧
  ∃ n w', seed_grants (all_up 0) (World narrow_store (Open Aborted) 0 [])
            = (Return n, w')
          ∧ (n ≤ 8)%nat
          ∧ sent w' = 8%nat
          ∧ conn w' = Open Idle.
Proof.
  split; [reflexivity|].
  apply (seeding_always_returns (all_up 0)
           (World narrow_store (Open Aborted) 0 []) Aborted).
  reflexivity.
Defined.

(** X2. Seeding is all or nothing. Started with no transaction running,
    the phase ends in one of two ways. Either it printed no warning: then
    every INSERT was accepted, [grants] holds exactly as many more rows as
    the count it reports, and every other table is as it was. Or it
    printed at least one warning: then the committed store is exactly the
    store before the phase, whatever count it reports. *)
Theorem seeding_all_or_nothing (E : env) (w : world) :
  conn w = Open Idle →
  ∃ n l s',
    seed_grants E w
      = (Return n,
         World s' (Open Idle) (sent w + 8) (log w ++ l ++ [seed_line n]))
    ∧ Forall (warning_of sample_grants) l
    ∧ ((l = []
        ∧ length (rows_of s' "grants")
            = (length (rows_of (store w) "grants") + n)%nat
        ∧ ∀ u, u ≠ "grants" → s' !! u = store w !! u)
       ∨ (l ≠ [] ∧ s' = store w)).
Proof.
  intros Hc.
  destruct (seed_grants_run E w Idle Hc) as (n & l & s' & Hrun & _ & Hall & Hcase);
    [done|].
  exists n, l, s'. split; [done|]. split; [done|].
  destruct Hcase as [(-> & new & (Hrows & _ & Hout & _) & Hlen & _) | ?];
    [left | by right].
  unfold view in *. rewrite Hc in *. split; [done|].
  split; [|done]. rewrite Hrows, length_app. lia.
Qed.

Lemma seeding_all_or_nothing_witness :
  conn (connected narrow_store) = Open Idle ∧
  ∃ n l s',
    seed_grants (all_up 0) (connected narrow_store)
      = (Return n, World s' (Open Idle) 8 (l ++ [seed_line n]))
    ∧ Forall (warning_of sample_grants) l
    ∧ ((l = []
        ∧ length (rows_of s' "grants")
            = (length (rows_of narrow_store "grants") + n)%nat
        ∧ ∀ u, u ≠ "grants" → s' !! u = narrow_store !! u)
       ∨ (l ≠ [] ∧ s' = narrow_store)).
Proof.
  split; [reflexivity|].
  apply (seeding_all_or_nothing (all_up 0) (connected narrow_store)).
  reflexivity.
Defined.

(** X3. What the seeding phase stores. Started with no transaction
    running, the phase leaves in [grants] the rows that were there,
    followed by at most eight new rows. Each new row carries the title of
    a catalog record, source "Government", and a deadline between 30 and
    180 days after today; the new rows come in catalog order. *)
Theorem seeded_rows_follow_the_catalog (E : env) (w : world) :
  conn w = Open Idle →
  ∃ new,
    rows_of (store (seed_grants E w).2) "grants"
      = rows_of (store w) "grants" ++ new
    ∧ Forall (seeded E) new
    ∧ titles new `sublist_of` map (λ g, VText (title g)) sample_grants.
Proof.
  intros Hc.
  destruct (seed_grants_run E w Idle Hc) as (n & l & s' & -> & _ & _ & Hcase);
    [done|].
  simpl.
  destruct Hcase as [(-> & new & (Hrows & Hall & _) & _ & Hord) | [_ ->]].
  - exists new. unfold view in Hrows. rewrite Hc in Hrows. done.
  - exists []. rewrite app_nil_r. split; [done|].
    split; [constructor | apply sublist_nil_l].
Qed.

Lemma seeded_rows_follow_the_catalog_witness :
  conn (connected provisioned) = Open Idle ∧
  ∃ new,
    rows_of (store (seed_grants (all_up 0) (connected provisioned)).2) "grants"
      = rows_of provisioned "grants" ++ new
    ∧ Forall (seeded (all_up 0)) new
    ∧ titles new `sublist_of` map (λ g, VText (title g)) sample_grants.
Proof.
  split; [reflexivity|].
  apply (seeded_rows_follow_the_catalog (all_up 0) (connected provisioned)).
  reflexivity.
Defined.

(** X4. The CREATE phase commits all or nothing. If the phase returns, the
    six tables exist in the committed store and no transaction is running.
    If it does not, it raised (it never exits) and the committed store is
    the one before the phase: the single [commit] comes after the sixth
    statement, so a rejected statement leaves none of the earlier tables
    behind. *)
Theorem create_phase_commits_all_or_nothing (w : world) :
  match create_tables w with
  | (Return _, w') =>
      (∀ d, d ∈ schema_statements → is_Some (store w' !! tname d))
      ∧ conn w' = Open Idle
  | (Raise _, w') => store w' = store w
  | (Exit _, _) => False
  end.
Proof.
  destruct (conn w) as [|t|] eqn:Hc.
  - destruct (create_tables_unusable w) as [e ->]; [congruence|done].
  - assert (t = Aborted ∨ t ≠ Aborted) as [->|Ht] by (destruct t; auto).
    + destruct (create_tables_unusable w) as [e ->]; [congruence|done].
    + rewrite (create_tables_run w t Hc Ht).
      destruct (ddl_all schema_statements (view w)) as [v'|e] eqn:Hd; [|done].
      split; [|done]. intros d Hin. simpl. by eapply ddl_all_makes_tables.
  - destruct (create_tables_unusable w) as [e ->]; [congruence|done].
Qed.

(** X5. The smoke test cannot fail the run. Whatever the AI provider
    answers, the smoke test returns, with the store, the connection and
    the INSERT counter untouched. It calls the modern shape first and the
    legacy shape only after the modern attempt failed, in the call or in
    the reading of its response. It prints the success line exactly when
    one attempt yielded a result, and a warning exactly when it could not
    print a result: both attempts failed, or the result is null or cannot
    be encoded, in which case the warning follows the success line. *)
Theorem smoke_test_only_logs (E : env) (w : world) :
  ∃ l, smoke_test E w
         = (Return (), World (store w) (conn w) (sent w) (log w ++ l))
       ∧ calls l = match attempt E Modern with
                   | Some _ => [(SmokeTest, Modern)]
                   | None => [(SmokeTest, Modern); (SmokeTest, Legacy)]
                   end
       ∧ (Print "[OK] AI analysis test successful!" ∈ l
          ↔ is_Some (smoke_result E))
       ∧ ((∃ e, smoke_warning e ∈ l) ↔ smoke_passes E = false).
Proof.
  exists (smoke_log E). split; [apply smoke_test_run|].
  unfold smoke_log, smoke_passes, smoke_result, result_log, smoke_warning.
  destruct (attempt E Modern) as [[text|]|];
    [destruct (console_ok E (shown text)) | |
     destruct (attempt E Legacy) as [[text|]|];
       [destruct (console_ok E (shown text)) | |]];
    simpl; (split; [reflexivity|]); split; split; intros H;
    first
      [ done
      | by eauto
      | solve [repeat first [apply list_elem_of_here | apply list_elem_of_further]]
      | solve [eexists;
               repeat first [apply list_elem_of_here | apply list_elem_of_further]]
      | by apply is_Some_None in H
      | exfalso;
        repeat (apply elem_of_cons in H as [H|H]; [discriminate H|]);
        by apply elem_of_nil in H
      | exfalso; destruct H as [e H];
        repeat (apply elem_of_cons in H as [H|H]; [discriminate H|]);
        by apply elem_of_nil in H ].
Qed.

(* ===================================================================== *)
(** ** A run that succeeds *)
(* ===================================================================== *)

Section RunFacts.

Lemma main_after_probes (E : env) (s : db) :
  connect_ok E = true → version_ok E = true →
  ai_ok E Probe Modern || ai_ok E Probe Legacy = true →
  ∃ lp, main E (boot s)
          = (create_tables ≫= λ _, seed_grants E ≫= λ _, report E)
              (World s (Open (InTxn s)) 0 lp).
Proof.
  intros Hc Hv Hai. rewrite main_unfold, probe_store_boot, Hc, Hv, bind_unfold.
  destruct (probe_ai_run E
              (World s (Open (InTxn s)) 0
                 [Print "[OK] Database connection successful!"])) as [l ->].
  rewrite Hai. eexists. reflexivity.
Qed.

(** The three probes a returning run has passed. *)
Lemma main_returns_probes (E : env) (s : db) (w' : world) :
  main E (boot s) = (Return (), w') →
  connect_ok E = true ∧ version_ok E = true
  ∧ ai_ok E Probe Modern || ai_ok E Probe Legacy = true.
Proof.
  rewrite main_unfold, probe_store_boot.
  destruct (connect_ok E); [|done]. destruct (version_ok E); [|done].
  rewrite bind_unfold.
  destruct (probe_ai_run E
              (World s (Open (InTxn s)) 0
                 [Print "[OK] Database connection successful!"])) as [l ->].
  by destruct (ai_ok E Probe Modern || ai_ok E Probe Legacy).
Qed.

(** The later phases, from the world the probes leave. *)
Lemma phases_return (E : env) (s : db) (lp : list event) (w' : world) :
  (create_tables ≫= λ _, seed_grants E ≫= λ _, report E)
    (World s (Open (InTxn s)) 0 lp) = (Return (), w') ↔
  file_ok E = true ∧ format_ok E (store w') = true
  ∧ ∃ v1 n l s2 tg tu tp,
      ddl_all schema_statements s = Ok v1
      ∧ seed_grants E
          (World v1 (Open Idle) 0 (lp ++ [Print "[OK] Tables created successfully!"]))
        = (Return n,
           World s2 (Open Idle) 8
             ((lp ++ [Print "[OK] Tables created successfully!"])
                ++ l ++ [seed_line n]))
      ∧ ((l = [] ∧ ∃ new, grew E v1 s2 new ∧ length new = n)
         ∨ (l ≠ [] ∧ s2 = v1))
      ∧ s2 !! "grants" = Some tg
      ∧ s2 !! "users" = Some tu
      ∧ s2 !! "predictions" = Some tp
      ∧ first_unknown_column (tdef tg) (map (λ c, (c, ())) listed_columns) = None
      ∧ w' = World s2 Closed 8
               (((lp ++ [Print "[OK] Tables created successfully!"])
                   ++ l ++ [seed_line n])
                  ++ report_log E (length (trows tg)) (length (trows tu))
                       (length (trows tp))).
Proof.
  rewrite bind_unfold.
  rewrite (create_tables_run (World s (Open (InTxn s)) 0 lp) (InTxn s));
    [|done..].
  change (view (World s (Open (InTxn s)) 0 lp)) with s.
  destruct (ddl_all schema_statements s) as [v1|e] eqn:Hd;
    [|split; [done | by intros (_ & _ & ? & ? & ? & ? & ? & ? & ? & [=] & _)]].
  cbn [store conn sent log]. rewrite bind_unfold.
  destruct (seed_grants_run E
              (World v1 (Open Idle) 0
                 (lp ++ [Print "[OK] Tables created successfully!"])) Idle)
    as (n & l & s2 & Hseed & _ & _ & Hcase); [done..|].
  unfold view in Hcase. cbn [store conn sent log] in Hseed, Hcase.
  change (0 + 8)%nat with 8%nat in Hseed.
  rewrite Hseed.
  rewrite (report_returns E
             (World s2 (Open Idle) 8
                ((lp ++ [Print "[OK] Tables created successfully!"])
                   ++ l ++ [seed_line n])) w' Idle eq_refl); [|done].
  unfold view. cbn [store conn sent log]. split.
  - intros (tg & tu & tp & Hg & Hu & Hp & Hfile & Hcols & Hfmt & ->).
    split; [done|]. split; [done|].
    exists v1, n, l, s2, tg, tu, tp. repeat split; try done.
    destruct Hcase as [(-> & new & Hnew & Hlen & _) | ?]; [left | by right].
    split; [done|]. by exists new.
  - intros (Hfile & Hfmt & v1' & n' & l' & s2' & tg & tu & tp
            & [= <-] & Hseed' & _ & Hg & Hu & Hp & Hcols & ->).
    rewrite Hseed in Hseed'. injection Hseed' as <- <- Hl.
    apply app_inv_head in Hl.
    assert (l' = l) as ->.
    { apply (f_equal (@rev event)) in Hl. rewrite !rev_app_distr in Hl.
      simpl in Hl. injection Hl as Hl. apply (f_equal (@rev event)) in Hl.
      by rewrite !rev_involutive in Hl. }
    exists tg, tu, tp. by repeat split.
Qed.

(** Exit status 0 means the script ran to its last line. *)
Lemma run_zero (E : env) (s : db) :
  (run E s).1 = 0 → main E (boot s) = (Return (), (run E s).2).
Proof.
  rewrite run_code, run_world.
  pose proof (main_ends (λ _ _, True) (λ _, I) (λ _ _ _ _ _, I) (λ _ _ _ _, I)
                (λ _ _ _ _ _ _ _ _, I) s E) as [_ Hend].
  destruct (main E (boot s)) as [[[]|e|c] w']; simpl in *; [done|done|].
  destruct Hend as [-> _]. done.
Qed.

(** A table of the store the CREATE phase left is still there after the
    seeding phase, whichever way that phase ended. *)
Lemma seeding_keeps_tables (E : env) (v1 s2 : db) (l : list event) (n : nat)
    (u : string) :
  (l = [] ∧ (∃ new, grew E v1 s2 new ∧ length new = n)) ∨ (l ≠ [] ∧ s2 = v1) →
  def_of s2 u = def_of v1 u.
Proof.
  intros [(_ & new & (_ & _ & Hout & Hdef) & _) | [_ ->]]; [|done].
  destruct (decide (u = "grants")) as [->|Hne]; [done|].
  unfold def_of. by rewrite Hout.
Qed.

Lemma def_of_is_Some (v : db) (u : string) (cols : list column) :
  def_of v u = Some cols → ∃ tb, v !! u = Some tb ∧ tdef tb = cols.
Proof.
  unfold def_of. destruct (v !! u) as [tb|]; [|done].
  intros [= <-]. eauto.
Qed.

End RunFacts.

(** X6. Exit status 0 certifies every check. When the process exits with
    status 0 the server was reached and answered the probe query, one of
    the two call shapes of the AI probe succeeded, every CREATE statement
    was accepted, the info file could be written and the rows of the final
    listing could be formatted. *)
Theorem success_passed_every_check (E : env) (s : db) :
  (run E s).1 = 0 →
  connect_ok E = true
  ∧ version_ok E = true
  ∧ ai_ok E Probe Modern || ai_ok E Probe Legacy = true
  ∧ (∃ v1, ddl_all schema_statements s = Ok v1)
  ∧ file_ok E = true
  ∧ format_ok E (store (run E s).2) = true.
Proof.
  intros Hmain%run_zero.
  destruct (main_returns_probes E s _ Hmain) as (Hc & Hv & Hai).
  destruct (main_after_probes E s Hc Hv Hai) as [lp Hlater].
  rewrite Hlater in Hmain.
  apply phases_return in Hmain as (Hfile & Hfmt & v1 & _ & _ & _ & _ & _ & _ & Hd & _).
  repeat split; try done. by exists v1.
Qed.

Lemma success_passed_every_check_witness :
  (run (all_up 0) ∅).1 = 0 ∧
  connect_ok (all_up 0) = true
  ∧ version_ok (all_up 0) = true
  ∧ ai_ok (all_up 0) Probe Modern || ai_ok (all_up 0) Probe Legacy = true
  ∧ (∃ v1, ddl_all schema_statements ∅ = Ok v1)
  ∧ file_ok (all_up 0) = true
  ∧ format_ok (all_up 0) (store (run (all_up 0) ∅).2) = true.
Proof.
  split; [by vm_compute|].
  apply (success_passed_every_check (all_up 0) ∅). by vm_compute.
Defined.

(** X7. Exit status 0 means a provisioned store. When the process exits
    with status 0 each of the six tables of the script exists in the store
    it leaves, whatever the store held before and whether or not the
    seeding phase kept its rows. *)
Theorem success_leaves_the_six_tables (E : env) (s : db) (d : table_def) :
  (run E s).1 = 0 →
  d ∈ schema_statements →
  is_Some (store (run E s).2 !! tname d).
Proof.
  intros Hmain%run_zero Hd.
  destruct (main_returns_probes E s _ Hmain) as (Hc & Hv & Hai).
  destruct (main_after_probes E s Hc Hv Hai) as [lp Hlater].
  rewrite Hlater in Hmain.
  apply phases_return in Hmain
    as (_ & _ & v1 & n & l & s2 & tg & tu & tp & Hddl & _ & Hcase & _ & _ & _ & _ & ->).
  simpl.
  destruct (ddl_all_makes_tables _ _ _ d Hddl Hd) as [tb Htb].
  pose proof (seeding_keeps_tables E v1 s2 l n (tname d) Hcase) as Hdef.
  unfold def_of in Hdef. rewrite Htb in Hdef.
  destruct (s2 !! tname d); [eauto | done].
Qed.

Lemma success_leaves_the_six_tables_witness :
  (run (all_up 0) narrow_store).1 = 0 ∧
  subscriptions ∈ schema_statements ∧
  is_Some (store (run (all_up 0) narrow_store).2 !! tname subscriptions).
Proof.
  assert (subscriptions ∈ schema_statements) as Hin
    by (apply list_elem_of_lookup; by exists 5%nat).
  split; [by vm_compute|]. split; [exact Hin|].
  apply (success_leaves_the_six_tables (all_up 0) narrow_store subscriptions);
    [by vm_compute | exact Hin].
Defined.

(** X8. The report tells the stored counts. When the process exits with
    status 0, the log ends with the report lines, and the numbers of
    grants, users and predictions they print, as well as the number of
    grants written to the info file, are the numbers of rows of those
    tables in the store the run leaves. *)
Theorem report_tells_the_stored_counts (E : env) (s : db) :
  (run E s).1 = 0 →
  let st := store (run E s).2 in
  ∃ before,
    log (run E s).2
      = before ++ report_log E (length (rows_of st "grants"))
                    (length (rows_of st "users"))
                    (length (rows_of st "predictions")).
Proof.
  intros Hmain%run_zero st.
  destruct (main_returns_probes E s _ Hmain) as (Hc & Hv & Hai).
  destruct (main_after_probes E s Hc Hv Hai) as [lp Hlater].
  rewrite Hlater in Hmain.
  apply phases_return in Hmain
    as (_ & _ & v1 & n & l & s2 & tg & tu & tp & _ & _ & _ & Hg & Hu & Hp & _ & Hw).
  subst st. rewrite Hw. simpl. unfold rows_of. rewrite Hg, Hu, Hp.
  by eexists.
Qed.

Lemma report_tells_the_stored_counts_witness :
  (run (all_up 0) ∅).1 = 0 ∧
  ∃ before,
    log (run (all_up 0) ∅).2
      = before ++ report_log (all_up 0)
                    (length (rows_of (store (run (all_up 0) ∅).2) "grants"))
                    (length (rows_of (store (run (all_up 0) ∅).2) "users"))
                    (length (rows_of (store (run (all_up 0) ∅).2) "predictions")).
Proof.
  split; [by vm_compute|].
  apply (report_tells_the_stored_counts (all_up 0) ∅). by vm_compute.
Defined.

(** X9. The run succeeds on a prepared store. If the server and the AI
    provider answer their probes, the info file can be written and the
    listing formatted, and the tables of the script that the store already
    holds are defined as the script defines them (the empty store, a
    partly or fully provisioned one), then the process exits with status
    0, whatever ids and random numbers are drawn and whatever the smoke
    test answers. *)
Theorem run_succeeds_on_a_prepared_store (E : env) (s : db) :
  connect_ok E = true →
  version_ok E = true →
  ai_ok E Probe Modern || ai_ok E Probe Legacy = true →
  file_ok E = true →
  (∀ v, format_ok E v = true) →
  agrees schema_statements s →
  (run E s).1 = 0.
Proof.
  intros Hc Hv Hai Hfile Hfmt Hagree.
  destruct (main_after_probes E s Hc Hv Hai) as [lp Hlater].
  destruct (ddl_all_ordered schema_statements [] s)
    as (v1 & Hddl & Hall & _ & _);
    [reflexivity | apply (bool_decide_unpack _); by vm_compute
    | by intros d Hin%elem_of_nil | exact Hagree |].
  destruct (seed_grants_run E
              (World v1 (Open Idle) 0
                 (lp ++ [Print "[OK] Tables created successfully!"])) Idle)
    as (n & l & s2 & Hseed & _ & _ & Hcase); [done..|].
  unfold view in Hcase. cbn [store conn sent log] in Hseed, Hcase.
  change (0 + 8)%nat with 8%nat in Hseed.
  assert ((l = [] ∧ (∃ new, grew E v1 s2 new ∧ length new = n))
          ∨ (l ≠ [] ∧ s2 = v1)) as Hcase'.
  { destruct Hcase as [(-> & new & Hnew & Hlen & _) | ?]; [left | by right].
    split; [done|]. by exists new. }
  assert (∀ d, d ∈ schema_statements →
               ∃ tb, s2 !! tname d = Some tb ∧ tdef tb = tcols d) as Htables.
  { intros d Hd. apply def_of_is_Some.
    rewrite (seeding_keeps_tables E v1 s2 l n (tname d) Hcase').
    apply Hall. by rewrite app_nil_l. }
  destruct (Htables grants) as (tg & Hg & Hgdef);
    [apply list_elem_of_lookup; by exists 0%nat|].
  destruct (Htables users) as (tu & Hu & _);
    [apply list_elem_of_lookup; by exists 3%nat|].
  destruct (Htables predictions) as (tp & Hp & _);
    [apply list_elem_of_lookup; by exists 4%nat|].
  unfold run. rewrite Hlater.
  rewrite (proj2 (phases_return E s lp
                    (World s2 Closed 8
                       (((lp ++ [Print "[OK] Tables created successfully!"])
                           ++ l ++ [seed_line n])
                          ++ report_log E (length (trows tg)) (length (trows tu))
                               (length (trows tp)))))); [done|].
  split; [done|]. split; [apply Hfmt|].
  exists v1, n, l, s2, tg, tu, tp. repeat split; try done.
  rewrite Hgdef. reflexivity.
Qed.

Lemma run_succeeds_on_a_prepared_store_witness :
  connect_ok (all_up 7) = true ∧
  version_ok (all_up 7) = true ∧
  ai_ok (all_up 7) Probe Modern || ai_ok (all_up 7) Probe Legacy = true ∧
  file_ok (all_up 7) = true ∧
  (∀ v, format_ok (all_up 7) v = true) ∧
  agrees schema_statements ∅ ∧
  (run (all_up 7) ∅).1 = 0.
Proof.
  assert (agrees schema_statements ∅) as Hempty.
  { intros d tb _ Hlook. by rewrite lookup_empty in Hlook. }
  do 4 (split; [reflexivity|]). split; [by intros v|]. split; [exact Hempty|].
  apply (run_succeeds_on_a_prepared_store (all_up 7) ∅);
    [reflexivity.. | by intros v | exact Hempty].
Defined.

Definition keeps_definitions (v v' : db) : Prop :=
  ∀ u cols, def_of v u = Some cols → def_of v' u = Some cols.

(** X10. A run never alters or drops a table it finds. Whatever the
    environment and however the run ends, every table of the initial store
    is in the final store with the columns it had: the conditional CREATE
    leaves an existing table as it is, even when its columns differ from
    those the script would declare. *)
Theorem existing_tables_keep_their_definition (E : env) (s : db)
    (u : string) (cols : list column) :
  def_of s u = Some cols →
  def_of (store (run E s).2) u = Some cols.
Proof.
  revert u cols. rewrite run_world.
  apply (main_ends keeps_definitions); unfold keeps_definitions.
  - done.
  - intros a b c Hab Hbc u cols Hu. by apply Hbc, Hab.
  - intros d v v' Hc u cols [tb [Htb <-]]%def_of_is_Some.
    unfold def_of. by rewrite (create_keeps_tables _ _ _ _ _ Hc Htb).
  - intros rnd nw g dl v v' n
      [[_ ->] | (_ & tb & r & Ht & _ & _ & _ & ->)]%insert_outcome u cols;
      [done|].
    destruct (decide (u = "grants")) as [->|Hne].
    + unfold def_of. rewrite lookup_insert_eq, Ht. done.
    + unfold def_of. by rewrite lookup_insert_ne.
Qed.

Lemma existing_tables_keep_their_definition_witness :
  def_of narrow_store "grants" = Some (tcols narrow_grants) ∧
  def_of (store (run (all_up 0) narrow_store).2) "grants"
    = Some (tcols narrow_grants).
Proof.
  split; [reflexivity|].
  apply (existing_tables_keep_their_definition (all_up 0) narrow_store).
  reflexivity.
Defined.

(* ===================================================================== *)
(** ** Seeding a table defined by the script *)
(* ===================================================================== *)

(** Some stored row has id [u]. *)
Definition id_taken (rows : list row) (u : Z) : bool :=
  existsb (λ r', bool_decide (row_get r' "id" = VUuid u)) rows.

Section OwnSchema.

(** Against the columns the script declares, every record of the catalog
    converts, leaves no required column empty and gets the generated id. *)
Lemma catalog_row rnd nw (g : grant) (dl : Z) :
  g ∈ sample_grants →
  ∃ r, rmap (column_value rnd nw (insert_parameters g dl))
         (imap pair (tcols grants)) = Ok r
       ∧ first_null_violation (tcols grants) r = None
       ∧ row_get r "id" = VUuid (rnd 0%nat)
       ∧ ∀ v, first_dangling_reference v (tcols grants) r = None.
Proof.
  intros Hg.
  repeat (apply elem_of_cons in Hg as [->|Hg]); [..|by apply elem_of_nil in Hg].
  all: eexists; split; [vm_compute; reflexivity|];
    split; [vm_compute; reflexivity|]; split; [reflexivity|];
    intros v; reflexivity.
Qed.

(** The only key of the script's [grants] is [id]. *)
Lemma conflicts_on_id (rows : list row) (r : row) (u : Z) :
  row_get r "id" = VUuid u →
  conflicts (tcols grants) rows r = id_taken rows u.
Proof.
  intros Hid. unfold conflicts, id_taken, key_taken. simpl.
  rewrite Hid. simpl. by rewrite orb_false_r.
Qed.

(** On such a table the INSERT of a catalog record is never rejected: it
    is skipped when the generated id is taken, and stored otherwise. *)
Lemma insert_statement_own_schema (E : env) (n i : nat) (g : grant) (v : db)
    (tb : table) :
  g ∈ sample_grants →
  v !! "grants" = Some tb →
  tdef tb = tcols grants →
  ∃ r, row_get r "id" = VUuid (uuid E n 0%nat)
       ∧ insert_statement E n i g v =
           if id_taken (trows tb) (uuid E n 0%nat) then Ok (v, 0%nat)
           else Ok (<["grants" := Table (tcols grants) (trows tb ++ [r])]> v,
                    1%nat).
Proof.
  intros Hg Hv Hdef.
  destruct (catalog_row (uuid E n) (now E) g
              (today E + randint 30 180 (entropy E i)) Hg)
    as (r & Hr & Hnull & Hid & Href).
  exists r. split; [done|].
  unfold insert_statement, insert_on_conflict_do_nothing.
  rewrite Hv, Hdef.
  change (first_unknown_column (tcols grants)
            (insert_parameters g (today E + randint 30 180 (entropy E i))))
    with (@None string).
  rewrite Hr. cbn [rbind]. rewrite Hnull, (conflicts_on_id _ _ _ Hid), Href.
  reflexivity.
Qed.

(** The generated ids never repeat, and none of them, from the [n]-th
    INSERT on, is the id of a row of [rows]. *)
Definition fresh_ids (E : env) (n : nat) (rows : list row) : Prop :=
  (∀ m m', uuid E m 0%nat = uuid E m' 0%nat → m = m')
  ∧ ∀ r' m, r' ∈ rows → (n ≤ m)%nat → row_get r' "id" ≠ VUuid (uuid E m 0%nat).

Lemma id_not_taken (E : env) (n : nat) (rows : list row) :
  fresh_ids E n rows → id_taken rows (uuid E n 0%nat) = false.
Proof.
  intros [_ Hfresh]. unfold id_taken.
  apply not_true_is_false. intros (r' & Hin & Hid)%existsb_exists.
  apply bool_decide_eq_true in Hid.
  by apply (Hfresh r' n); [apply list_elem_of_In|lia|].
Qed.

(** The loop on a [grants] table defined by the script: nothing is logged,
    and with fresh ids every record is stored. *)
Lemma seed_loop_own_schema (E : env) (gs : list grant) (i k : nat) (w : world)
    (t : txn) :
  (∀ g, g ∈ gs → g ∈ sample_grants) →
  conn w = Open t → t ≠ Aborted →
  def_of (view w) "grants" = Some (tcols grants) →
  ∃ k' t' new,
    seed_loop E i gs k w
      = (Return k', World (store w) (Open t') (sent w + length gs) (log w))
    ∧ t' ≠ Aborted
    ∧ grew E (view w) (txn_view (store w) t') new
    ∧ length new = (k' - k)%nat
    ∧ (k ≤ k')%nat
    ∧ (fresh_ids E (sent w) (rows_of (view w) "grants") →
       titles new = map (λ g, VText (title g)) gs).
Proof.
  revert i k w t. induction gs as [|g gs IH];
    intros i k [st c n l0] t Hsub Hc Ht Hdef; simpl in Hc; subst c.
  - exists k, t, []. simpl. rewrite Nat.add_0_r.
    split; [done|]. split; [done|]. split.
    { unfold view. simpl. destruct t; apply grew_nothing. }
    split; [simpl; lia|]. split; [lia|done].
  - rewrite seed_loop_step, seed_one_run.
    assert (g ∈ sample_grants) as Hg by (apply Hsub; by left).
    assert (∀ g', g' ∈ gs → g' ∈ sample_grants) as Hsub'
      by (intros g' Hin; apply Hsub; by right).
    set (w0 := World st (Open t) n l0) in *.
    apply def_of_is_Some in Hdef as Htb. destruct Htb as (tb & Htb & Htdef).
    destruct (insert_statement_own_schema E n i g (view w0) tb Hg Htb Htdef)
      as (r & Hid & Hins).
    assert (rows_of (view w0) "grants" = trows tb) as Hrows
      by (unfold rows_of; by rewrite Htb).
    assert (∀ v' m, insert_statement E n i g (view w0) = Ok (v', m) →
              match conn w0 with
              | Open Aborted =>
                  (Return k,
                   World (store w0) (Open Aborted) (S (sent w0))
                     (log w0 ++ [warning g (DatabaseError InFailedSqlTransaction)]))
              | Open _ =>
                  match insert_statement E (sent w0) i g (view w0) with
                  | Ok (v', m) =>
                      (Return (if (0 <? m)%nat then S k else k),
                       World (store w0) (Open (InTxn v')) (S (sent w0)) (log w0))
                  | Err e =>
                      (Return k,
                       World (store w0) (Open Aborted) (S (sent w0))
                         (log w0 ++ [warning g (DatabaseError e)]))
                  end
              | c =>
                  (Return k,
                   World (store w0) c (S (sent w0))
                     (log w0 ++ [warning g InterfaceError]))
              end
              = (Return (if (0 <? m)%nat then S k else k),
                 World st (Open (InTxn v')) (S n) l0)) as Hstep.
    { intros v' m Hok. subst w0. simpl in *. rewrite Hok. by destruct t. }
    destruct (id_taken (trows tb) (uuid E n 0%nat)) eqn:Htaken.
    + rewrite (Hstep _ _ Hins).
      change (if (0 <? 0)%nat then S k else k) with k.
      destruct (IH (S i) k (World st (Open (InTxn (view w0))) (S n) l0)
                  (InTxn (view w0)))
        as (k' & t' & new & -> & Ht' & Hnew & Hlen & Hk & _); [done..|].
      simpl in *. exists k', t', new.
      split; [f_equal; f_equal; lia|]. split; [done|]. split; [done|].
      split; [done|]. split; [done|].
      intros Hfresh. rewrite Hrows in Hfresh.
      by rewrite (id_not_taken E n _ Hfresh) in Htaken.
    + rewrite (Hstep _ _ Hins).
      change (if (0 <? 1)%nat then S k else k) with (S k).
      destruct (insert_statement_grew E n i g _ _ _ Hg Hins)
        as [[[=] _] | (_ & r' & Hgrew & Htitle)].
      assert (r' = r) as ->.
      { destruct Hgrew as (Hr' & _). rewrite rows_of_insert_eq, Hrows in Hr'.
        simpl in Hr'. apply app_inv_head in Hr'. by injection Hr'. }
      set (v1 := <["grants" := Table (tcols grants) (trows tb ++ [r])]> (view w0))
        in *.
      destruct (IH (S i) (S k) (World st (Open (InTxn v1)) (S n) l0) (InTxn v1))
        as (k' & t' & new & -> & Ht' & Hnew & Hlen & Hk & Hexact); [done..| |].
      { unfold view, def_of, v1. simpl. by rewrite lookup_insert_eq. }
      simpl in *. exists k', t', ([r] ++ new).
      split; [f_equal; f_equal; lia|]. split; [done|].
      split; [by eapply grew_more|]. split; [simpl; lia|]. split; [lia|].
      intros [Hinj Hfresh]. simpl. rewrite Htitle. f_equal. apply Hexact.
      split; [done|]. intros r0 m Hin Hm. unfold view in Hin. simpl in Hin.
      unfold v1 in Hin. rewrite rows_of_insert_eq in Hin. simpl in Hin.
      apply elem_of_app in Hin as [Hin | ->%list_elem_of_singleton].
      * apply Hfresh; [by rewrite Hrows | lia].
      * rewrite Hid. intros [= Heq]. apply Hinj in Heq. lia.
Qed.

End OwnSchema.

(** X11. On a table defined by the script no record is rejected. Started
    with no transaction running on a store whose [grants] table has the
    columns the script declares, the seeding phase prints no warning: each
    of the eight records is stored, or skipped because its generated id is
    already taken, and the count it reports is the number of rows it
    added to [grants]. *)
Theorem seeding_own_table_never_warns (E : env) (w : world) :
  conn w = Open Idle →
  def_of (store w) "grants" = Some (tcols grants) →
  ∃ n new s',
    seed_grants E w
      = (Return n, World s' (Open Idle) (sent w + 8) (log w ++ [seed_line n]))
    ∧ rows_of s' "grants" = rows_of (store w) "grants" ++ new
    ∧ length new = n.
Proof.
  intros Hc Hdef.
  destruct (seed_loop_own_schema E sample_grants 0 0 w Idle)
    as (n & t' & new & Hloop & Ht' & (Hrows & _) & Hlen & _); [done..| |].
  { unfold view. by rewrite Hc. }
  exists n, new, (txn_view (store w) t').
  unfold seed_grants. rewrite bind_unfold, Hloop.
  change (length sample_grants) with 8%nat.
  unfold view in Hrows. rewrite Hc in Hrows.
  split; [|split; [done|lia]].
  unfold commit, commit_on, print, emit, seed_line, mbind, M_bind. simpl.
  by destruct t'.
Qed.

Lemma seeding_own_table_never_warns_witness :
  conn (connected provisioned) = Open Idle ∧
  def_of (store (connected provisioned)) "grants" = Some (tcols grants) ∧
  ∃ n new s',
    seed_grants (all_up 0) (connected provisioned)
      = (Return n, World s' (Open Idle) 8 [seed_line n])
    ∧ rows_of s' "grants" = rows_of provisioned "grants" ++ new
    ∧ length new = n.
Proof.
  split; [reflexivity|]. split; [reflexivity|].
  apply (seeding_own_table_never_warns (all_up 0) (connected provisioned));
    reflexivity.
Defined.

(** X12. With fresh ids every pass stores the whole catalog. Started with
    no transaction running on a store whose [grants] table has the columns
    the script declares, and with generated ids that never repeat and are
    not in the table, the seeding phase reports 8 new records and appends
    eight rows carrying the eight titles of the catalog, in order. The
    rows already in the table play no part: the same titles may be there
    already. *)
Theorem seeding_with_fresh_ids_adds_all (E : env) (w : world) :
  conn w = Open Idle →
  def_of (store w) "grants" = Some (tcols grants) →
  fresh_ids E (sent w) (rows_of (store w) "grants") →
  ∃ new s',
    seed_grants E w
      = (Return 8%nat,
         World s' (Open Idle) (sent w + 8) (log w ++ [seed_line 8]))
    ∧ rows_of s' "grants" = rows_of (store w) "grants" ++ new
    ∧ titles new = map (λ g, VText (title g)) sample_grants.
Proof.
  intros Hc Hdef Hfresh.
  destruct (seed_loop_own_schema E sample_grants 0 0 w Idle)
    as (n & t' & new & Hloop & Ht' & (Hrows & _) & Hlen & _ & Hexact);
    [done..| |].
  { unfold view. by rewrite Hc. }
  unfold view in Hrows, Hexact. rewrite Hc in Hrows, Hexact.
  specialize (Hexact Hfresh).
  assert (n = 8%nat) as ->.
  { apply (f_equal length) in Hexact. unfold titles in Hexact.
    rewrite !length_map in Hexact. change (length sample_grants) with 8%nat in *.
    lia. }
  exists new, (txn_view (store w) t').
  unfold seed_grants. rewrite bind_unfold, Hloop.
  change (length sample_grants) with 8%nat.
  split; [|done].
  unfold commit, commit_on, print, emit, seed_line, mbind, M_bind. simpl.
  by destruct t'.
Qed.

Lemma seeding_with_fresh_ids_adds_all_witness :
  let once := store (seed_grants (all_up 0) (connected provisioned)).2 in
  conn (connected once) = Open Idle ∧
  def_of (store (connected once)) "grants" = Some (tcols grants) ∧
  fresh_ids (all_up 100) 0 (rows_of once "grants") ∧
  titles (rows_of once "grants") = map (λ g, VText (title g)) sample_grants ∧
  ∃ new s',
    seed_grants (all_up 100) (connected once)
      = (Return 8%nat, World s' (Open Idle) 8 [seed_line 8])
    ∧ rows_of s' "grants" = rows_of once "grants" ++ new
    ∧ titles new = map (λ g, VText (title g)) sample_grants.
Proof.
  intros once.
  assert (fresh_ids (all_up 100) 0 (rows_of once "grants")) as Hfresh.
  { split.
    - intros m m'. simpl. lia.
    - intros r' m Hin _ Hid.
      assert (forallb (λ r0, match row_get r0 "id" with
                             | VUuid j => (j <? 100)%Z
                             | _ => false
                             end) (rows_of once "grants") = true) as Hsmall
        by (by vm_compute).
      rewrite forallb_forall in Hsmall.
      apply list_elem_of_In, Hsmall in Hin. rewrite Hid in Hin. simpl in Hin.
      apply Z.ltb_lt in Hin. lia. }
  split; [reflexivity|]. split; [by vm_compute|]. split; [exact Hfresh|].
  split; [by vm_compute|].
  apply (seeding_with_fresh_ids_adds_all (all_up 100) (connected once));
    [reflexivity | by vm_compute | exact Hfresh].
Defined.
